(** * Membership reconciliation of the Consul server ([consul/serf.go])

    A shallow embedding of the Serf event handlers of the Consul server and
    the properties of its member classifier, its directory of remote
    servers and its Raft join loop.

    Go strings are byte strings: they are modelled by [string].  Go's [int]
    is modelled by [Z], with the range check of [strconv.Atoi] written out.
    The map [remoteConsuls] is a [gmap], slices are lists. *)

From Stdlib Require Import ZArith Ascii String List Lia Bool.
From stdpp Require Import base option list gmap strings pretty.

Local Open Scope string_scope.
Local Open Scope Z_scope.
Local Open Scope list_scope.

(** ** The Go library functions the handlers call *)

(** [strings.HasPrefix] and [strings.SplitN].  The only separator the
    handlers pass is the one-byte string [":"], so the separator of the
    model is one byte. *)
Module Strings.

Definition HasPrefix (s pre : string) : bool := String.prefix pre s.

(** The text before the first [sep] and the text after it, when [sep]
    occurs in [s]. *)
Fixpoint cut (sep : ascii) (s : string) : option (string * string) :=
  match s with
  | EmptyString => None
  | String c s' =>
      if Ascii.eqb c sep then Some (EmptyString, s')
      else match cut sep s' with
           | Some (a, b) => Some (String c a, b)
           | None => None
           end
  end.

(** The loop of [genSplit]: at most [k] pieces, the last one the unsplit
    remainder. *)
Fixpoint genSplit (sep : ascii) (k : nat) (s : string) : list string :=
  match k with
  | O => []
  | S O => [s]
  | S k' =>
      match cut sep s with
      | Some (a, rest) => a :: genSplit sep k' rest
      | None => [s]
      end
  end.

(** [SplitN s sep n]: [n > 0] gives at most [n] pieces, [n = 0] gives
    none, [n < 0] gives them all. *)
Definition SplitN (s : string) (sep : ascii) (n : Z) : list string :=
  if n =? 0 then []
  else if n <? 0 then genSplit sep (S (String.length s)) s
  else genSplit sep (Z.to_nat n) s.

End Strings.

(** [strconv.Atoi], which is [ParseInt(s, 10, 0)]: an optional sign, then
    one or more decimal digits, and the value must fit Go's [int]. *)
Module Strconv.

(** [strconv.IntSize] on the 64-bit platforms. *)
Definition IntSize : Z := 64.
Definition maxInt : Z := 2 ^ (IntSize - 1) - 1.
Definition minInt : Z := - 2 ^ (IntSize - 1).

Inductive NumError := ErrSyntax | ErrRange.

Definition is_digit (c : ascii) : bool :=
  (48 <=? Z.of_nat (nat_of_ascii c)) && (Z.of_nat (nat_of_ascii c) <=? 57).

Definition digit_val (c : ascii) : Z := Z.of_nat (nat_of_ascii c) - 48.

(** The digits of [s] read in base 10 onto [acc]; [None] at a byte that
    is not a digit. *)
Fixpoint parse_digits (s : string) (acc : Z) : option Z :=
  match s with
  | EmptyString => Some acc
  | String c s' =>
      if is_digit c then parse_digits s' (10 * acc + digit_val c) else None
  end.

Definition split_sign (s : string) : bool * string :=
  match s with
  | String "+"%char r => (false, r)
  | String "-"%char r => (true, r)
  | _ => (false, s)
  end.

(** The value and the error, as Go returns them: 0 with a syntax error,
    the nearest bound with a range error. *)
Definition Atoi (s : string) : Z * option NumError :=
  let '(neg, body) := split_sign s in
  match body with
  | EmptyString => (0, Some ErrSyntax)
  | _ =>
      match parse_digits body 0 with
      | None => (0, Some ErrSyntax)
      | Some v =>
          let n := if neg then - v else v in
          if n <? minInt then (minInt, Some ErrRange)
          else if maxInt <? n then (maxInt, Some ErrRange)
          else (n, None)
      end
  end.

End Strconv.

(** ** Serf members and events *)

Inductive MemberStatus :=
  StatusNone | StatusAlive | StatusLeaving | StatusLeft | StatusFailed.

#[global] Instance MemberStatus_eq_dec : EqDecision MemberStatus.
Proof. solve_decision. Defined.

(** [serf.Member]; [Addr] is a [net.IP], a slice of bytes. *)
Record Member := {
  Name : string;
  Addr : list Byte.byte;
  Role : string;
  Status : MemberStatus
}.

Inductive Event :=
| EventMemberJoin (Members : list Member)
| EventMemberLeave (Members : list Member)
| EventMemberFailed (Members : list Member)
| EventUser (payload : string)
| EventOther (repr : string).

(** [net.TCPAddr], the only implementation of [net.Addr] the handlers
    build. *)
Record TCPAddr := { IP : list Byte.byte; Port : Z }.

(** The interface [net.Addr].  The handlers compare addresses by the text
    [String()] renders; the rendering itself belongs to Go's [net] package
    and stays abstract. *)
Class NetAddr (A : Type) := {
  Network : A -> string;
  AddrString : A -> string
}.

(** ** The server *)

Record Config := { Datacenter : string; NodeName : string }.

(** The part of [Server] the handlers touch: the directory of remote
    servers, the lines handed to the logger, and the goroutines started
    with [go], each with the arguments of its [joinConsulServer] call. *)
Record Server := {
  remoteConsuls : gmap string (list TCPAddr);
  logged : list string;
  spawned : list (Member * Z)
}.

Definition newServer : Server :=
  {| remoteConsuls := ∅; logged := []; spawned := [] |}.

(** A handler either returns or panics; the server state it reached is
    kept in both cases. *)
Inductive Outcome (A : Type) :=
| Done (a : A)
| Panicked (msg : string).
Arguments Done {A} a.
Arguments Panicked {A} msg.

Definition M (A : Type) : Type := Server -> Outcome A * Server.

Definition ret {A} (a : A) : M A := fun s => (Done a, s).

Definition bind {A B} (c : M A) (k : A -> M B) : M B :=
  fun s =>
    match c s with
    | (Done a, s') => k a s'
    | (Panicked msg, s') => (Panicked msg, s')
    end.

Notation "x <- c ;; k" := (bind c (fun x => k))
  (at level 100, c at next level, right associativity).
Notation "c ;;; k" := (bind c (fun _ => k))
  (at level 100, right associativity).

Definition panic {A} (msg : string) : M A := fun s => (Panicked msg, s).

(** [s.logger.Printf], with the line already formatted. *)
Definition logLine (s : Server) (line : string) : Server :=
  {| remoteConsuls := remoteConsuls s;
     logged := logged s ++ [line];
     spawned := spawned s |}.

Definition Printf (line : string) : M unit :=
  fun s => (Done tt, logLine s line).

(** [parts[i]]: Go panics when the index is out of range. *)
Definition index (parts : list string) (i : nat) : M string :=
  match parts !! i with
  | Some x => ret x
  | None => panic "index out of range"
  end.

(** A loop [for _, x := range xs { body }]. *)
Fixpoint forEach {A} (body : A -> M unit) (xs : list A) : M unit :=
  match xs with
  | [] => ret tt
  | x :: xs' => body x ;;; forEach body xs'
  end.

(** *** The member classifier *)

Definition failedToParse (role : string) : string :=
  "[ERR] Failed to parse role: " +:+ role.

Definition isConsulServer (m : Member) : M (bool * string * Z) :=
  let role := Role m in
  if negb (Strings.HasPrefix role "consul:") then ret (false, "", 0)
  else
    let parts := Strings.SplitN role ":"%char 3 in
    datacenter <- index parts 1 ;;
    port_str <- index parts 2 ;;
    match Strconv.Atoi port_str with
    | (_, Some _) => Printf (failedToParse role) ;;; ret (false, "", 0)
    | (port, None) => ret (true, datacenter, port)
    end.

(** *** The directory of remote servers *)

(** [s.remoteConsuls[dc]]: the nil slice when the key is absent. *)
Definition getRemote (dc : string) : M (list TCPAddr) :=
  fun s => (Done (default [] (remoteConsuls s !! dc)), s).

(** [s.remoteConsuls[dc] = l]. *)
Definition setRemote (dc : string) (l : list TCPAddr) : M unit :=
  fun s => (Done tt, {| remoteConsuls := <[dc := l]> (remoteConsuls s);
                        logged := logged s;
                        spawned := spawned s |}).

(** [delete(s.remoteConsuls, dc)]. *)
Definition deleteRemote (dc : string) : M unit :=
  fun s => (Done tt, {| remoteConsuls := delete dc (remoteConsuls s);
                        logged := logged s;
                        spawned := spawned s |}).

(** [go s.joinConsulServer(m, port)]: the goroutine is recorded, it runs
    on its own (see [joinConsulServer]). *)
Definition goJoinConsulServer (m : Member) (port : Z) : M unit :=
  fun s => (Done tt, {| remoteConsuls := remoteConsuls s;
                        logged := logged s;
                        spawned := spawned s ++ [(m, port)] |}).

Section Handlers.

Context `{!NetAddr TCPAddr}.
Variable config : Config.

(** [e.String() == addr.String()]. *)
Definition sameAddr (addr e : TCPAddr) : bool :=
  String.eqb (AddrString e) (AddrString addr).

Definition nonConsulInWAN (m : Member) : string :=
  "[WARN] Non-Consul server in WAN pool: " +:+ Name m +:+ " %!s(MISSING)".

Definition addingServer (dc : string) (addr : TCPAddr) : string :=
  "[INFO] Adding Consul server (Datacenter: " +:+ dc +:+ ") (Addr: "
    +:+ AddrString addr +:+ ")".

Definition removingServer (dc : string) (addr : TCPAddr) : string :=
  "[INFO] Removing Consul server (Datacenter: " +:+ dc +:+ ") (Addr: "
    +:+ AddrString addr +:+ ")".

Definition wrongCluster (m : Member) (dc : string) : string :=
  "[WARN] Consul server " +:+ Name m +:+ " for datacenter " +:+ dc
    +:+ " has joined wrong cluster".

(** The body of the loop of [remoteJoin]; the lock is held by the one
    handler that writes the directory and is left out. *)
Definition remoteJoin1 (m : Member) : M unit :=
  r <- isConsulServer m ;;
  let '(ok, dc, port) := r in
  if negb ok then Printf (nonConsulInWAN m)
  else
    let addr := {| IP := Addr m; Port := port |} in
    Printf (addingServer dc addr) ;;;
    existing <- getRemote dc ;;
    let found := existsb (sameAddr addr) existing in
    if negb found then setRemote dc (existing ++ [addr]) else ret tt.

Definition remoteJoin (me : list Member) : M unit := forEach remoteJoin1 me.

(** The scan of [remoteFailed]: at the first [i] whose entry renders as
    [addr], the last entry is moved to [i] and the slice loses its last
    slot; the result is the slice and its length [n]. *)
Definition swapRemove (addr : TCPAddr) (existing : list TCPAddr)
  : list TCPAddr :=
  let n := length existing in
  match list_find (fun e => sameAddr addr e = true) existing with
  | Some (i, _) =>
      match existing !! (n - 1)%nat with
      | Some lst => take (n - 1) (<[i := lst]> existing)
      | None => existing
      end
  | None => existing
  end.

Definition remoteFailed1 (m : Member) : M unit :=
  r <- isConsulServer m ;;
  let '(ok, dc, port) := r in
  if negb ok then ret tt
  else
    let addr := {| IP := Addr m; Port := port |} in
    Printf (removingServer dc addr) ;;;
    existing <- getRemote dc ;;
    let existing' := swapRemove addr existing in
    if Nat.eqb (length existing') 0 then deleteRemote dc
    else setRemote dc existing'.

Definition remoteFailed (me : list Member) : M unit :=
  forEach remoteFailed1 me.

(** *** The handlers of the LAN events *)

Definition localJoin1 (m : Member) : M unit :=
  r <- isConsulServer m ;;
  let '(ok, dc, port) := r in
  if negb ok then ret tt
  else if negb (String.eqb dc (Datacenter config))
  then Printf (wrongCluster m dc)
  else goJoinConsulServer m port.

Definition localJoin (me : list Member) : M unit := forEach localJoin1 me.

Definition localLeave (me : list Member) : M unit := ret tt.
Definition localFailed (me : list Member) : M unit := ret tt.
Definition localEvent (ue : string) : M unit := ret tt.

Definition unhandledEvent (repr : string) : string :=
  "[WARN] Unhandled LAN Serf Event: " +:+ repr.

(** The [switch] of [lanEventHandler] and of [wanEventHandler]. *)
Definition lanDispatch (e : Event) : M unit :=
  match e with
  | EventMemberJoin me => localJoin me
  | EventMemberLeave me => localLeave me
  | EventMemberFailed me => localFailed me
  | EventUser ue => localEvent ue
  | EventOther repr => Printf (unhandledEvent repr)
  end.

Definition wanDispatch (e : Event) : M unit :=
  match e with
  | EventMemberJoin me => remoteJoin me
  | EventMemberLeave me => remoteFailed me
  | EventMemberFailed me => remoteFailed me
  | EventUser _ => ret tt
  | EventOther repr => Printf (unhandledEvent repr)
  end.

(** The handlers run on the events the channel delivers before the
    shutdown channel is closed, in the order of delivery. *)
Definition lanEventHandler (evs : list Event) : M unit :=
  forEach lanDispatch evs.

Definition wanEventHandler (evs : list Event) : M unit :=
  forEach wanDispatch evs.

End Handlers.

(** *** The Raft join loop *)

(** [memberStatus]: the status of the first member called [name]. *)
Fixpoint memberStatus (members : list Member) (name : string) : MemberStatus :=
  match members with
  | [] => StatusNone
  | m :: members' =>
      if String.eqb (Name m) name then Status m
      else memberStatus members' name
  end.

(** What a goroutine running [joinConsulServer] asks of the rest of the
    process, in the order it asks. *)
Inductive Action :=
| ActPeers                      (* s.raftPeers.Peers() *)
| ActMembers                    (* s.serfLAN.Members() *)
| ActAddPeer (addr : TCPAddr)   (* s.raft.AddPeer(addr) *)
| ActLog (line : string)        (* s.logger.Printf *)
| ActSleep                      (* time.Sleep(500 * time.Millisecond) *)
| ActPollShutdown.              (* select on s.shutdownCh *)

(** The answers of the rest of the process in each round of the loop:
    the peers or the error of [Peers()], the members of the LAN pool, the
    error of [AddPeer] if any, and whether the shutdown channel is closed
    when the goroutine wakes up. *)
Record World := {
  raftPeers : nat -> list TCPAddr + string;
  serfLANMembers : nat -> list Member;
  raftAddPeer : nat -> TCPAddr -> option string;
  shutdownCh : nat -> bool
}.

Inductive Exit := Returned | Retrying.

Section Join.

Context `{!NetAddr TCPAddr}.
Variable config : Config.
Variable world : World.

Definition failedPeers (err : string) : string :=
  "[ERR] Failed to get raft peers: " +:+ err.
Definition failedAddPeer (err : string) : string :=
  "[ERR] Failed to add raft peer: " +:+ err.

(** The label [WAIT], then the loop again: [round] counts the passes
    through [CHECK], [fuel] bounds the passes that are run. *)
Fixpoint joinLoop (m : Member) (addr : TCPAddr) (fuel round : nat)
  : Exit * list Action :=
  match fuel with
  | O => (Retrying, [])
  | S fuel' =>
      let wait (done : list Action) :=
        if shutdownCh world round
        then (Returned, done ++ [ActSleep; ActPollShutdown])
        else
          let '(e, rest) := joinLoop m addr fuel' (S round) in
          (e, done ++ [ActSleep; ActPollShutdown] ++ rest) in
      match raftPeers world round with
      | inr err => wait [ActPeers; ActLog (failedPeers err)]
      | inl peers =>
          if existsb (sameAddr addr) peers then (Returned, [ActPeers])
          else if negb (bool_decide
                   (memberStatus (serfLANMembers world round) (Name m)
                    = StatusAlive))
          then (Returned, [ActPeers; ActMembers])
          else
            match raftAddPeer world round addr with
            | Some err =>
                wait [ActPeers; ActMembers; ActAddPeer addr;
                      ActLog (failedAddPeer err)]
            | None => (Returned, [ActPeers; ActMembers; ActAddPeer addr])
            end
      end
  end.

Definition joinConsulServer (m : Member) (port : Z) (fuel : nat)
  : Exit * list Action :=
  if String.eqb (Name m) (NodeName config) then (Returned, [])
  else joinLoop m {| IP := Addr m; Port := port |} fuel 0.

Definition isAddPeer (a : Action) : bool :=
  match a with ActAddPeer _ => true | _ => false end.

(** The add-peer requests of the goroutines a handler has started. *)
Definition addPeerRequests (s : Server) (fuel : nat) : list Action :=
  flat_map (fun t => filter (fun a => isAddPeer a = true)
                       (snd (joinConsulServer (fst t) (snd t) fuel)))
           (spawned s).

End Join.

(** * The vocabulary of the properties *)

(** The words of the wire format: a field holds no colon, a port is a run
    of decimal digits, possibly signed, read most significant digit
    first. *)
Fixpoint no_sep (sep : ascii) (s : string) : bool :=
  match s with
  | EmptyString => true
  | String c s' => negb (Ascii.eqb c sep) && no_sep sep s'
  end.

Fixpoint all_digits (s : string) : bool :=
  match s with
  | EmptyString => true
  | String c s' => Strconv.is_digit c && all_digits s'
  end.

Definition is_decimal (s : string) : bool :=
  match s with
  | EmptyString => false
  | _ => all_digits s
  end.

Fixpoint decimal (s : string) : Z :=
  match s with
  | EmptyString => 0
  | String c s' =>
      Strconv.digit_val c * 10 ^ Z.of_nat (String.length s') + decimal s'
  end.

Definition is_signed_decimal (s : string) : bool :=
  match s with
  | String "+"%char r => is_decimal r
  | String "-"%char r => is_decimal r
  | _ => is_decimal s
  end.

Definition signed_decimal (s : string) : Z :=
  match s with
  | String "+"%char r => decimal r
  | String "-"%char r => - decimal r
  | _ => decimal s
  end.

Definition fits_int (n : Z) : Prop :=
  Strconv.minInt <= n <= Strconv.maxInt.

(** The role tag [consul:S:P]. *)
Definition roleTag (S P : string) : string :=
  "consul:" +:+ S +:+ ":" +:+ P.

(** What the classifier answers for a member; the server it runs in only
    receives the log line. *)
Definition classify (m : Member) : Outcome (bool * string * Z) :=
  fst (isConsulServer m newServer).

(** A handler keeps a property of the directory when each pass of its loop
    does, whether it returns or panics. *)
Definition keepsDir {A} (P : gmap string (list TCPAddr) -> Prop) (c : M A) :=
  forall s, P (remoteConsuls s) -> P (remoteConsuls (snd (c s))).

Section DirectoryModel.

Context `{!NetAddr TCPAddr}.

Implicit Types (d : gmap string (list TCPAddr)) (l : list TCPAddr).

(** The invariant: a site that is a key has a non-empty list, in which
    no two entries render as the same text. *)
Definition dirInv d : Prop :=
  forall dc l, d !! dc = Some l -> l <> [] /\ NoDup (AddrString <$> l).

(** The directory after one pass of the loop of [remoteJoin] and of
    [remoteFailed] for a participant of [dc] at [addr]. *)
Definition addDir (dc : string) (addr : TCPAddr) d :=
  let existing := default [] (d !! dc) in
  if existsb (sameAddr addr) existing then d
  else <[dc := existing ++ [addr]]> d.

Definition removeDir (dc : string) (addr : TCPAddr) d :=
  let existing' := swapRemove addr (default [] (d !! dc)) in
  if Nat.eqb (length existing') 0 then delete dc d
  else <[dc := existing']> d.

Definition joinDir1 (m : Member) d :=
  match classify m with
  | Done (true, dc, port) => addDir dc {| IP := Addr m; Port := port |} d
  | _ => d
  end.

Definition failDir1 (m : Member) d :=
  match classify m with
  | Done (true, dc, port) => removeDir dc {| IP := Addr m; Port := port |} d
  | _ => d
  end.

(** The directory after the loop of [remoteJoin], which stops at the
    member at which the classifier panics. *)
Fixpoint joinDir (me : list Member) d :=
  match me with
  | [] => d
  | m :: me' =>
      match classify m with
      | Panicked _ => d
      | Done _ => joinDir me' (joinDir1 m d)
      end
  end.

(** [a] is in the list of site [dc], up to rendering. *)
Definition present d (dc : string) (a : TCPAddr) : bool :=
  existsb (sameAddr a) (default [] (d !! dc)).

(** The number of entries of [l] that render as [a]. *)
Definition occurrences (a : TCPAddr) l : nat :=
  length (filter (fun e => AddrString e = AddrString a) l).

(** The participants the loop of [remoteJoin] reaches are all in the
    directory. *)
Fixpoint covered (me : list Member) d : Prop :=
  match me with
  | [] => True
  | m :: me' =>
      match classify m with
      | Panicked _ => True
      | Done (true, dc, port) =>
          present d dc {| IP := Addr m; Port := port |} = true
          /\ covered me' d
      | Done _ => covered me' d
      end
  end.

End DirectoryModel.

(** ** The vocabulary of the further properties *)

(** A handler leaves a part of the server as it found it. *)
Definition keeps {A B} (part : Server -> B) (c : M A) : Prop :=
  forall s, part (snd (c s)) = part s.

(** A tag made of the marker and of one field. *)
Definition shortTag (role : string) : Prop :=
  exists S, role = "consul:" +:+ S /\ no_sep ":" S = true.

(** The members of the join events, and of the join, leave and fail
    events, in the order of delivery. *)
Definition joinedMembers (evs : list Event) : list Member :=
  flat_map (fun e => match e with EventMemberJoin me => me | _ => [] end) evs.

Definition wanMembers (evs : list Event) : list Member :=
  flat_map (fun e => match e with
                     | EventMemberJoin me => me
                     | EventMemberLeave me => me
                     | EventMemberFailed me => me
                     | _ => []
                     end) evs.

(** The members of an event that come before the first one at which the
    classifier panics. *)
Fixpoint reached (me : list Member) : list Member :=
  match me with
  | [] => []
  | m :: me' =>
      match classify m with
      | Panicked _ => []
      | Done _ => m :: reached me'
      end
  end.

(** The goroutine [localJoin] starts for a member, if any. *)
Definition qualifies (config : Config) (m : Member) : option (Member * Z) :=
  match classify m with
  | Done (true, dc, port) =>
      if String.eqb dc (Datacenter config) then Some (m, port) else None
  | _ => None
  end.

(** The entries of the directory are addresses of participants among
    [ms], each under the site of its tag. *)
Definition fromMembers (ms : list Member) (d : gmap string (list TCPAddr))
  : Prop :=
  forall dc l a,
    d !! dc = Some l -> a ∈ l ->
    exists m port,
      m ∈ ms /\ classify m = Done (true, dc, port)
      /\ a = {| IP := Addr m; Port := port |}.

Section FailModel.

Context `{!NetAddr TCPAddr}.

(** The directory after the loop of [remoteFailed], which stops at the
    member at which the classifier panics. *)
Fixpoint failDir (me : list Member) (d : gmap string (list TCPAddr)) :=
  match me with
  | [] => d
  | m :: me' =>
      match classify m with
      | Panicked _ => d
      | Done _ => failDir me' (failDir1 m d)
      end
  end.

(** The participants the loop of [remoteFailed] reaches are all out of
    the directory. *)
Fixpoint cleared (me : list Member) (d : gmap string (list TCPAddr)) : Prop :=
  match me with
  | [] => True
  | m :: me' =>
      match classify m with
      | Panicked _ => True
      | Done (true, dc, port) =>
          present d dc {| IP := Addr m; Port := port |} = false
          /\ cleared me' d
      | Done _ => cleared me' d
      end
  end.

End FailModel.

(** What a pass of the join loop comes to: a wait and one more pass, a
    request that Raft accepts, or a return without a request. *)
Inductive Pass := PassRetry | PassAdded | PassStop.

Section JoinModel.

Context `{!NetAddr TCPAddr}.

Definition pass (world : World) (m : Member) (addr : TCPAddr) (round : nat)
  : Pass :=
  match raftPeers world round with
  | inr _ => PassRetry
  | inl peers =>
      if existsb (sameAddr addr) peers then PassStop
      else if negb (bool_decide
                      (memberStatus (serfLANMembers world round) (Name m)
                       = StatusAlive))
      then PassStop
      else match raftAddPeer world round addr with
           | Some _ => PassRetry
           | None => PassAdded
           end
  end.

End JoinModel.

Definition isPeers (a : Action) : bool :=
  match a with ActPeers => true | _ => false end.

(** The LAN events the handler reacts to: the joins, and the events of a
    type it does not know, which it logs. *)
Definition lanRelevant (e : Event) : bool :=
  match e with
  | EventMemberJoin _ => true
  | EventOther _ => true
  | _ => false
  end.

(** ** A pool of three servers *)

(** For the examples, the text Go renders for a TCP address over IPv4: the
    four bytes in decimal between dots, a colon, the port. *)
Definition renderTCPAddr (a : TCPAddr) : string :=
  String.concat "." (map (fun b => pretty (Byte.to_N b)) (IP a))
    +:+ ":" +:+ pretty (Port a).

Definition tcp4 : NetAddr TCPAddr :=
  {| Network := fun _ => "tcp"; AddrString := renderTCPAddr |}.

Definition dc1 : Config := {| Datacenter := "dc1"; NodeName := "node1" |}.

Definition node2 : Member :=
  {| Name := "node2"; Addr := [Byte.x0a; Byte.x00; Byte.x00; Byte.x02];
     Role := "consul:dc1:8300"; Status := StatusAlive |}.

Definition node3 : Member :=
  {| Name := "node3"; Addr := [Byte.x0a; Byte.x00; Byte.x00; Byte.x03];
     Role := "consul:dc2:8300"; Status := StatusAlive |}.

Definition node4 : Member :=
  {| Name := "node4"; Addr := [Byte.x0a; Byte.x00; Byte.x00; Byte.x04];
     Role := "consul:dc2:8300"; Status := StatusAlive |}.

Definition addrOf (m : Member) (port : Z) : TCPAddr :=
  {| IP := Addr m; Port := port |}.

Definition peerWorld : World :=
  {| raftPeers := fun _ => inl [addrOf node2 8300];
     serfLANMembers := fun _ => [node2];
     raftAddPeer := fun _ _ => None;
     shutdownCh := fun _ => false |}.

(** A world in which Raft has no peer yet and refuses the first request. *)
Definition freshWorld : World :=
  {| raftPeers := fun _ => inl [];
     serfLANMembers := fun _ => [node2];
     raftAddPeer := fun round _ =>
       match round with O => Some "not leader" | _ => None end;
     shutdownCh := fun _ => false |}.

Definition emptyLANWorld : World :=
  {| raftPeers := fun _ => inl [];
     serfLANMembers := fun _ => [];
     raftAddPeer := fun _ _ => None;
     shutdownCh := fun _ => false |}.

(** A world in which Raft cannot be read and the shutdown channel is
    closed. *)
Definition closingWorld : World :=
  {| raftPeers := fun _ => inr "no leader";
     serfLANMembers := fun _ => [node2];
     raftAddPeer := fun _ _ => None;
     shutdownCh := fun _ => true |}.

(** * Properties *)

(** ** Role tags *)

Lemma cut_no_sep sep (a rest : string) :
  no_sep sep a = true ->
  Strings.cut sep (a +:+ String sep rest) = Some (a, rest).
Proof.
  induction a as [|c a IH]; simpl; intros Hs.
  - now rewrite Ascii.eqb_refl.
  - apply andb_prop in Hs as [Hc Ha].
    apply negb_true_iff in Hc. rewrite Hc, (IH Ha). reflexivity.
Qed.

Lemma cut_none sep (a : string) :
  no_sep sep a = true -> Strings.cut sep a = None.
Proof.
  induction a as [|c a IH]; simpl; intros Hs; [reflexivity|].
  apply andb_prop in Hs as [Hc Ha].
  apply negb_true_iff in Hc. now rewrite Hc, (IH Ha).
Qed.

Lemma HasPrefix_roleTag S P : Strings.HasPrefix (roleTag S P) "consul:" = true.
Proof. unfold Strings.HasPrefix, roleTag. simpl. now destruct (S +:+ ":" +:+ P). Qed.

Lemma SplitN_roleTag S P :
  no_sep ":" S = true ->
  Strings.SplitN (roleTag S P) ":" 3 = ["consul"; S; P].
Proof.
  intros HS. unfold Strings.SplitN, roleTag.
  change (Strings.genSplit ":" 3 ("consul" +:+ String ":" (S +:+ String ":" P))
          = ["consul"; S; P]).
  cbn [Strings.genSplit].
  rewrite (cut_no_sep ":" "consul") by reflexivity.
  now rewrite (cut_no_sep _ _ _ HS).
Qed.

Lemma SplitN_short S :
  no_sep ":" S = true ->
  Strings.SplitN ("consul:" +:+ S) ":" 3 = ["consul"; S].
Proof.
  intros HS. unfold Strings.SplitN.
  change (Strings.genSplit ":" 3 ("consul" +:+ String ":" S) = ["consul"; S]).
  cbn [Strings.genSplit].
  rewrite (cut_no_sep ":" "consul") by reflexivity.
  now rewrite (cut_none _ _ HS).
Qed.

Lemma parse_digits_decimal (s : string) (acc : Z) :
  all_digits s = true ->
  Strconv.parse_digits s acc
  = Some (acc * 10 ^ Z.of_nat (String.length s) + decimal s).
Proof.
  revert acc. induction s as [|c s IH]; intros acc Hd.
  - simpl. f_equal. lia.
  - cbn [all_digits] in Hd. apply andb_prop in Hd as [Hc Hs].
    cbn [Strconv.parse_digits decimal String.length]. rewrite Hc, (IH _ Hs).
    f_equal. rewrite Nat2Z.inj_succ, Z.pow_succ_r by lia. ring.
Qed.

Lemma parse_digits_not_digits (s : string) (acc : Z) :
  all_digits s = false -> Strconv.parse_digits s acc = None.
Proof.
  revert acc. induction s as [|c s IH]; intros acc Hd; [discriminate|].
  cbn [all_digits] in Hd. cbn [Strconv.parse_digits].
  destruct (Strconv.is_digit c); [|reflexivity].
  apply IH. exact Hd.
Qed.

(** [Atoi] on a run of digits whose value fits. *)
Lemma Atoi_body (neg : bool) (body : string) :
  is_decimal body = true ->
  let n := if neg then - decimal body else decimal body in
  fits_int n ->
  match body with
  | EmptyString => (0, Some Strconv.ErrSyntax)
  | _ =>
      match Strconv.parse_digits body 0 with
      | None => (0, Some Strconv.ErrSyntax)
      | Some v =>
          let n := if neg then - v else v in
          if n <? Strconv.minInt then (Strconv.minInt, Some Strconv.ErrRange)
          else if Strconv.maxInt <? n
               then (Strconv.maxInt, Some Strconv.ErrRange)
               else (n, None)
      end
  end = (n, None).
Proof.
  intros Hd n [Hlo Hhi]. destruct body as [|c b]; [discriminate|].
  rewrite (parse_digits_decimal _ 0 Hd). rewrite Z.mul_0_l, Z.add_0_l.
  fold n. cbv zeta.
  destruct (Z.ltb_spec n Strconv.minInt); [lia|].
  destruct (Z.ltb_spec Strconv.maxInt n); [lia|]. reflexivity.
Qed.

Lemma Atoi_signed_decimal (s : string) :
  is_signed_decimal s = true ->
  fits_int (signed_decimal s) ->
  Strconv.Atoi s = (signed_decimal s, None).
Proof.
  intros Hs Hfit. unfold Strconv.Atoi.
  destruct s as [|c r]; [discriminate|].
  destruct (Ascii.ascii_dec c "+") as [->|Hp].
  { exact (Atoi_body false r Hs Hfit). }
  destruct (Ascii.ascii_dec c "-") as [->|Hm].
  { exact (Atoi_body true r Hs Hfit). }
  assert (Hsplit : Strconv.split_sign (String c r) = (false, String c r)).
  { unfold Strconv.split_sign.
    destruct c as [[] [] [] [] [] [] [] []]; try reflexivity; congruence. }
  assert (His : is_signed_decimal (String c r) = is_decimal (String c r)).
  { unfold is_signed_decimal.
    destruct c as [[] [] [] [] [] [] [] []]; try reflexivity; congruence. }
  assert (Hv : signed_decimal (String c r) = decimal (String c r)).
  { unfold signed_decimal.
    destruct c as [[] [] [] [] [] [] [] []]; try reflexivity; congruence. }
  rewrite Hsplit. rewrite His in Hs. rewrite Hv in Hfit |- *.
  exact (Atoi_body false (String c r) Hs Hfit).
Qed.

Lemma Atoi_not_decimal (s : string) :
  is_signed_decimal s = false ->
  Strconv.Atoi s = (0, Some Strconv.ErrSyntax).
Proof.
  assert (Hbody : forall neg body, is_decimal body = false ->
    match body with
    | EmptyString => (0, Some Strconv.ErrSyntax)
    | _ =>
        match Strconv.parse_digits body 0 with
        | None => (0, Some Strconv.ErrSyntax)
        | Some v =>
            let n := if neg : bool then - v else v in
            if n <? Strconv.minInt
            then (Strconv.minInt, Some Strconv.ErrRange)
            else if Strconv.maxInt <? n
                 then (Strconv.maxInt, Some Strconv.ErrRange)
                 else (n, None)
        end
    end = (0, Some Strconv.ErrSyntax)).
  { intros neg [|c b] Hd; [reflexivity|].
    now rewrite (parse_digits_not_digits _ 0 Hd). }
  intros Hs. unfold Strconv.Atoi.
  destruct s as [|c r]; [reflexivity|].
  destruct (Ascii.ascii_dec c "+") as [->|Hp].
  { exact (Hbody false r Hs). }
  destruct (Ascii.ascii_dec c "-") as [->|Hm].
  { exact (Hbody true r Hs). }
  assert (Hsplit : Strconv.split_sign (String c r) = (false, String c r)).
  { unfold Strconv.split_sign.
    destruct c as [[] [] [] [] [] [] [] []]; try reflexivity; congruence. }
  assert (His : is_signed_decimal (String c r) = is_decimal (String c r)).
  { unfold is_signed_decimal.
    destruct c as [[] [] [] [] [] [] [] []]; try reflexivity; congruence. }
  rewrite Hsplit. rewrite His in Hs.
  exact (Hbody false (String c r) Hs).
Qed.

(** The classifier on a tag [consul:S:P] whose site holds no colon: the
    outcome is the one of [Atoi] on [P]. *)
Lemma isConsulServer_roleTag (m : Member) (S P : string) (s : Server) :
  Role m = roleTag S P ->
  no_sep ":" S = true ->
  isConsulServer m s
  = match Strconv.Atoi P with
    | (_, Some _) => (Done (false, "", 0), logLine s (failedToParse (Role m)))
    | (port, None) => (Done (true, S, port), s)
    end.
Proof.
  intros Hrole HS. unfold isConsulServer. rewrite Hrole.
  rewrite HasPrefix_roleTag, (SplitN_roleTag _ _ HS). cbn.
  unfold bind, index, ret. cbn.
  destruct (Strconv.Atoi P) as [port [err|]]; reflexivity.
Qed.

(** C1 (the code departs from the claim): a tag that opens with the marker
    and lacks the site or the port field, such as [consul:] and
    [consul:dc1], is not classified as a non-participant: the classifier
    reads [parts[2]] of a slice of two strings and panics. *)
Theorem isConsulServer_missing_field_panics
    (name : string) (addr : list Byte.byte) (st : MemberStatus) (s : Server) :
  isConsulServer {| Name := name; Addr := addr; Role := "consul:";
                    Status := st |} s
  = (Panicked "index out of range", s)
  /\ isConsulServer {| Name := name; Addr := addr; Role := "consul:dc1";
                       Status := st |} s
     = (Panicked "index out of range", s).
Proof. split; reflexivity. Qed.

(** Every tag made of the marker and one more field panics the same way. *)
Lemma isConsulServer_two_fields_panics (m : Member) (S : string) (s : Server) :
  Role m = "consul:" +:+ S ->
  no_sep ":" S = true ->
  isConsulServer m s = (Panicked "index out of range", s).
Proof.
  intros Hrole HS. unfold isConsulServer. rewrite Hrole.
  replace (Strings.HasPrefix ("consul:" +:+ S) "consul:") with true
    by (unfold Strings.HasPrefix; cbn; now destruct S).
  rewrite (SplitN_short _ HS). reflexivity.
Qed.

(** C3, amended with the bound of [int]: a role tag [consul:S:P], where
    the site field [S] holds no colon and the port field [P] is a decimal
    numeral that [Atoi] takes for a non-negative [int] (digits, possibly
    after a sign, with a value from 0 to the largest [int]), is classified
    as a participant of site [S] with the port that [P] denotes, and
    nothing is logged. *)
Theorem isConsulServer_participant
    (m : Member) (S P : string) (s : Server) :
  Role m = roleTag S P ->
  no_sep ":" S = true ->
  is_signed_decimal P = true ->
  0 <= signed_decimal P <= Strconv.maxInt ->
  isConsulServer m s = (Done (true, S, signed_decimal P), s).
Proof.
  intros Hrole HS HP [Hlo Hhi].
  rewrite (isConsulServer_roleTag m S P s Hrole HS).
  rewrite (Atoi_signed_decimal P HP); [reflexivity|].
  split; [|exact Hhi].
  unfold Strconv.minInt, Strconv.IntSize. lia.
Qed.

Lemma isConsulServer_participant_witness :
  isConsulServer
    {| Name := "n1"; Addr := []; Role := "consul:dc1:8300";
       Status := StatusAlive |} newServer
  = (Done (true, "dc1", 8300), newServer).
Proof.
  apply (isConsulServer_participant _ "dc1" "8300" newServer);
    [reflexivity | reflexivity | reflexivity | ].
  split; vm_compute; discriminate.
Defined.

(** C3, as first worded, fails beyond the largest [int]: the port field
    [9223372036854775808] is a decimal numeral of a non-negative value in
    a tag whose site holds no colon, and [Atoi] refuses it for its range,
    so the classifier logs the parse failure and answers that the member
    is no participant. *)
Lemma isConsulServer_participant_counterexample :
  no_sep ":" "dc1" = true
  /\ is_signed_decimal "9223372036854775808" = true
  /\ (0 <=? signed_decimal "9223372036854775808") = true
  /\ isConsulServer
       {| Name := "n1"; Addr := [];
          Role := roleTag "dc1" "9223372036854775808";
          Status := StatusAlive |} newServer
     = (Done (false, "", 0),
        logLine newServer
          (failedToParse (roleTag "dc1" "9223372036854775808")))
  /\ isConsulServer
       {| Name := "n1"; Addr := [];
          Role := roleTag "dc1" "9223372036854775808";
          Status := StatusAlive |} newServer
     <> (Done (true, "dc1", signed_decimal "9223372036854775808"),
         newServer).
Proof.
  split; [reflexivity|]. split; [reflexivity|]. split; [reflexivity|].
  split; [reflexivity|]. discriminate.
Qed.

(** C4: a role tag that does not open with the marker is classified as a
    non-participant and nothing is logged; a tag [consul:S:P] whose port
    field [P] is not a decimal numeral is classified as a non-participant
    and exactly one line, the parse failure, is logged. *)
Theorem isConsulServer_non_participant (m : Member) (s : Server) :
  (Strings.HasPrefix (Role m) "consul:" = false ->
   isConsulServer m s = (Done (false, "", 0), s))
  /\ (forall S P : string,
        Role m = roleTag S P ->
        no_sep ":" S = true ->
        is_signed_decimal P = false ->
        isConsulServer m s
        = (Done (false, "", 0), logLine s (failedToParse (Role m)))
        /\ logged (logLine s (failedToParse (Role m)))
           = logged s ++ [failedToParse (Role m)]).
Proof.
  split.
  - intros Hpre. unfold isConsulServer. now rewrite Hpre.
  - intros S P Hrole HS HP. split; [|reflexivity].
    rewrite (isConsulServer_roleTag m S P s Hrole HS).
    now rewrite (Atoi_not_decimal P HP).
Qed.

Lemma isConsulServer_non_participant_witness :
  isConsulServer
    {| Name := "n1"; Addr := []; Role := "web"; Status := StatusAlive |}
    newServer
  = (Done (false, "", 0), newServer)
  /\ isConsulServer
       {| Name := "n2"; Addr := []; Role := "consul:dc1:http";
          Status := StatusAlive |} newServer
     = (Done (false, "", 0),
        {| remoteConsuls := ∅;
           logged := ["[ERR] Failed to parse role: consul:dc1:http"];
           spawned := [] |}).
Proof.
  split.
  - apply (isConsulServer_non_participant
             {| Name := "n1"; Addr := []; Role := "web";
                Status := StatusAlive |} newServer).
    reflexivity.
  - apply (isConsulServer_non_participant
             {| Name := "n2"; Addr := []; Role := "consul:dc1:http";
                Status := StatusAlive |} newServer) with (S := "dc1") (P := "http");
      reflexivity.
Defined.

(** C10: the classifier checks neither the sign nor the range of the port
    beyond what [Atoi] does: a tag [consul:S:N], where [N] is a decimal
    numeral with an optional sign whose value fits Go's [int], is
    classified as a participant of site [S] with port [N], negative values
    included. *)
Theorem isConsulServer_signed_port
    (m : Member) (S N : string) (s : Server) :
  Role m = roleTag S N ->
  no_sep ":" S = true ->
  is_signed_decimal N = true ->
  fits_int (signed_decimal N) ->
  isConsulServer m s = (Done (true, S, signed_decimal N), s).
Proof.
  intros Hrole HS HN Hfit.
  rewrite (isConsulServer_roleTag m S N s Hrole HS).
  now rewrite (Atoi_signed_decimal N HN Hfit).
Qed.

Lemma isConsulServer_signed_port_witness :
  isConsulServer
    {| Name := "n1"; Addr := []; Role := "consul:dc1:-1";
       Status := StatusAlive |} newServer
  = (Done (true, "dc1", -1), newServer).
Proof.
  apply (isConsulServer_signed_port _ "dc1" "-1" newServer);
    [reflexivity | reflexivity | reflexivity | ].
  split; vm_compute; discriminate.
Defined.

(** ** The directory of remote servers *)

Lemma isConsulServer_classify (m : Member) (s : Server) :
  fst (isConsulServer m s) = classify m
  /\ (snd (isConsulServer m s) = s
      \/ snd (isConsulServer m s) = logLine s (failedToParse (Role m))).
Proof.
  unfold classify, isConsulServer.
  destruct (negb (Strings.HasPrefix (Role m) "consul:")); [now split; [|left]|].
  unfold bind, index, ret, panic, Printf.
  destruct (Strings.SplitN (Role m) ":" 3 !! 1%nat); [|now split; [|left]].
  destruct (Strings.SplitN (Role m) ":" 3 !! 2%nat); [|now split; [|left]].
  destruct (Strconv.Atoi s1) as [port [err|]]; cbn; split; auto.
Qed.

Lemma isConsulServer_remoteConsuls (m : Member) (s : Server) :
  remoteConsuls (snd (isConsulServer m s)) = remoteConsuls s.
Proof.
  destruct (isConsulServer_classify m s) as [_ [-> | ->]]; reflexivity.
Qed.

Lemma keepsDir_forEach {A} P (body : A -> M unit) (xs : list A) :
  (forall x, keepsDir P (body x)) -> keepsDir P (forEach body xs).
Proof.
  intros Hbody. induction xs as [|x xs IH]; intros s Hs; [exact Hs|].
  cbn [forEach]. unfold bind.
  pose proof (Hbody x s Hs) as Hx.
  destruct (body x s) as [[[]|msg] s']; cbn in Hx |- *; [|exact Hx].
  apply IH, Hx.
Qed.

Lemma forEach_app {A} (body : A -> M unit) (xs ys : list A) (s s' : Server) :
  forEach body xs s = (Done tt, s') ->
  forEach body (xs ++ ys) s = forEach body ys s'.
Proof.
  revert s. induction xs as [|x xs IH]; intros s Hxs.
  - cbn in Hxs. now inversion Hxs.
  - cbn [forEach app] in Hxs |- *. unfold bind in Hxs |- *.
    destruct (body x s) as [[[]|msg] s1]; [|discriminate].
    now apply IH.
Qed.

Section Directory.

Context `{!NetAddr TCPAddr}.

Implicit Types (d : gmap string (list TCPAddr)) (l : list TCPAddr).

Lemma remoteJoin1_dir (m : Member) (s : Server) :
  remoteConsuls (snd (remoteJoin1 m s)) = joinDir1 m (remoteConsuls s)
  /\ fst (remoteJoin1 m s)
     = match classify m with
       | Done _ => Done tt
       | Panicked msg => Panicked msg
       end.
Proof.
  unfold remoteJoin1, joinDir1, bind.
  destruct (isConsulServer_classify m s) as [Hfst _].
  pose proof (isConsulServer_remoteConsuls m s) as Hdir.
  destruct (isConsulServer m s) as [r s1]. cbn in Hfst, Hdir.
  rewrite <- Hfst, <- Hdir.
  destruct r as [[[[] dc] port]|msg]; cbn; [|now split|now split].
  unfold addDir, getRemote, setRemote, ret. cbn.
  destruct (existsb _ _); cbn; now split.
Qed.

Lemma remoteFailed1_dir (m : Member) (s : Server) :
  remoteConsuls (snd (remoteFailed1 m s)) = failDir1 m (remoteConsuls s)
  /\ fst (remoteFailed1 m s)
     = match classify m with
       | Done _ => Done tt
       | Panicked msg => Panicked msg
       end.
Proof.
  unfold remoteFailed1, failDir1, bind.
  destruct (isConsulServer_classify m s) as [Hfst _].
  pose proof (isConsulServer_remoteConsuls m s) as Hdir.
  destruct (isConsulServer m s) as [r s1]. cbn in Hfst, Hdir.
  rewrite <- Hfst, <- Hdir.
  destruct r as [[[[] dc] port]|msg]; cbn; [|now split|now split].
  unfold removeDir, getRemote, setRemote, deleteRemote, ret. cbn.
  destruct (Nat.eqb _ _); cbn; now split.
Qed.

Lemma sameAddr_true (a e : TCPAddr) :
  sameAddr a e = true <-> AddrString e = AddrString a.
Proof. unfold sameAddr. apply String.eqb_eq. Qed.

Lemma existsb_sameAddr (a : TCPAddr) l :
  existsb (sameAddr a) l = true <-> AddrString a ∈ AddrString <$> l.
Proof.
  rewrite existsb_exists, list_elem_of_fmap. split.
  - intros (e & Hin & He). exists e. apply sameAddr_true in He.
    split; [easy|]. now apply list_elem_of_In.
  - intros (e & He & Hin). exists e. split; [now apply list_elem_of_In|].
    now apply sameAddr_true.
Qed.

Lemma swapRemove_not_found (a : TCPAddr) l :
  existsb (sameAddr a) l = false -> swapRemove a l = l.
Proof.
  intros Hex. unfold swapRemove.
  destruct (list_find _ l) as [[i x]|] eqn:Hfind; [|reflexivity].
  apply list_find_Some in Hfind as (Hi & Hx & _).
  assert (existsb (sameAddr a) l = true); [|congruence].
  apply existsb_exists. exists x. split; [|exact Hx].
  apply list_elem_of_In. eapply list_elem_of_lookup_2, Hi.
Qed.

(** The entry that [swapRemove] drops and the entries it keeps are the
    entries of the list. *)
Lemma swapRemove_found (a : TCPAddr) l :
  existsb (sameAddr a) l = true ->
  exists x, sameAddr a x = true /\ x :: swapRemove a l ≡ₚ l.
Proof.
  intros Hex. unfold swapRemove.
  destruct (list_find _ l) as [[i x]|] eqn:Hfind.
  2:{ apply list_find_None in Hfind. apply existsb_exists in Hex.
      destruct Hex as (e & Hin & He). apply list_elem_of_In in Hin.
      rewrite Forall_forall in Hfind. now destruct (Hfind e Hin). }
  apply list_find_Some in Hfind as (Hi & Hx & _).
  exists x. split; [exact Hx|].
  destruct l as [|y l0 _] using rev_ind; [discriminate|].
  rewrite length_app, Nat.add_1_r. cbn [length Nat.sub].
  rewrite Nat.sub_0_r, list_lookup_middle by reflexivity.
  destruct (decide (i = length l0)) as [->|Hne].
  - rewrite list_lookup_middle in Hi by reflexivity. inversion Hi; subst y.
    rewrite insert_app_r_alt, Nat.sub_diag by lia. cbn.
    rewrite take_app_length. apply Permutation_cons_append.
  - assert (Hlt : (i < length l0)%nat).
    { apply lookup_lt_Some in Hi. rewrite length_app in Hi. cbn in Hi. lia. }
    rewrite lookup_app_l in Hi by exact Hlt.
    rewrite insert_app_l by exact Hlt.
    rewrite take_app_length' by now rewrite length_insert.
    rewrite <- (take_drop_middle l0 i x Hi) at 2.
    rewrite (insert_take_drop l0 i y Hlt).
    rewrite <- Permutation_cons_append, <- !Permutation_middle.
    apply perm_swap.
Qed.

Lemma dirInv_empty : dirInv ∅.
Proof. intros dc l Hl. now rewrite lookup_empty in Hl. Qed.

Lemma dirInv_lookup d dc :
  dirInv d -> NoDup (AddrString <$> default [] (d !! dc)).
Proof.
  intros Hd. destruct (d !! dc) as [l|] eqn:Hl; cbn.
  - now apply (Hd dc l).
  - constructor.
Qed.

Lemma dirInv_addDir dc a d : dirInv d -> dirInv (addDir dc a d).
Proof.
  intros Hd. unfold addDir.
  destruct (existsb _ _) eqn:Hex; [exact Hd|].
  intros dc' l Hl. destruct (decide (dc = dc')) as [<-|Hne].
  - rewrite lookup_insert_eq in Hl. inversion Hl; subst l. split.
    + now destruct (default [] (d !! dc)).
    + rewrite fmap_app. cbn. apply NoDup_app. split; [|split].
      * now apply dirInv_lookup.
      * intros x Hx Hx'. apply list_elem_of_singleton in Hx'. subst x.
        apply existsb_sameAddr in Hx. congruence.
      * apply NoDup_singleton.
  - rewrite lookup_insert_ne in Hl by exact Hne. now apply (Hd dc').
Qed.

Lemma dirInv_removeDir dc a d : dirInv d -> dirInv (removeDir dc a d).
Proof.
  intros Hd. unfold removeDir.
  assert (Hnd : NoDup (AddrString <$> swapRemove a (default [] (d !! dc)))).
  { pose proof (dirInv_lookup d dc Hd) as Hl.
    destruct (existsb (sameAddr a) (default [] (d !! dc))) eqn:Hex.
    - apply swapRemove_found in Hex as (x & _ & Hperm).
      rewrite <- Hperm in Hl. rewrite fmap_cons in Hl.
      now apply NoDup_cons in Hl as [_ Hl].
    - now rewrite (swapRemove_not_found _ _ Hex). }
  destruct (Nat.eqb_spec (length (swapRemove a (default [] (d !! dc)))) 0)
    as [Hlen|Hlen]; intros dc' l Hl.
  - destruct (decide (dc = dc')) as [<-|Hne].
    + now rewrite lookup_delete_eq in Hl.
    + rewrite lookup_delete_ne in Hl by exact Hne. now apply (Hd dc').
  - destruct (decide (dc = dc')) as [<-|Hne].
    + rewrite lookup_insert_eq in Hl. inversion Hl; subst l.
      split; [|exact Hnd]. intros Hnil. now rewrite Hnil in Hlen.
    + rewrite lookup_insert_ne in Hl by exact Hne. now apply (Hd dc').
Qed.

Lemma keepsDir_remoteJoin1 (m : Member) : keepsDir dirInv (remoteJoin1 m).
Proof.
  intros s Hs. destruct (remoteJoin1_dir m s) as [-> _].
  unfold joinDir1. destruct (classify m) as [[[[] dc] port]|msg]; auto.
  now apply dirInv_addDir.
Qed.

Lemma keepsDir_remoteFailed1 (m : Member) :
  keepsDir dirInv (remoteFailed1 m).
Proof.
  intros s Hs. destruct (remoteFailed1_dir m s) as [-> _].
  unfold failDir1. destruct (classify m) as [[[[] dc] port]|msg]; auto.
  now apply dirInv_removeDir.
Qed.

Lemma keepsDir_wanDispatch (e : Event) : keepsDir dirInv (wanDispatch e).
Proof.
  destruct e as [me|me|me|ue|repr]; cbn [wanDispatch].
  - apply keepsDir_forEach, keepsDir_remoteJoin1.
  - apply keepsDir_forEach, keepsDir_remoteFailed1.
  - apply keepsDir_forEach, keepsDir_remoteFailed1.
  - intros s Hs. exact Hs.
  - intros s Hs. exact Hs.
Qed.

Lemma dirInv_wanEventHandler (evs : list Event) :
  dirInv (remoteConsuls (snd (wanEventHandler evs newServer))).
Proof.
  apply (keepsDir_forEach dirInv wanDispatch evs keepsDir_wanDispatch).
  apply dirInv_empty.
Qed.

Lemma forEach_single {A} (body : A -> M unit) (x : A) (s : Server) :
  snd (forEach body [x] s) = snd (body x s)
  /\ fst (forEach body [x] s) = fst (body x s).
Proof.
  cbn [forEach]. unfold bind, ret.
  now destruct (body x s) as [[[]|msg] s'].
Qed.

Lemma removeDir_last dc (a e : TCPAddr) d :
  d !! dc = Some [e] ->
  AddrString e = AddrString a ->
  removeDir dc a d !! dc = None.
Proof.
  intros Hl He. unfold removeDir, swapRemove. rewrite Hl. cbn.
  apply sameAddr_true in He.
  destruct (decide (sameAddr a e = true)) as [_|Hn]; [|contradiction].
  cbn. apply lookup_delete_eq.
Qed.

(** C2: whatever join, leave and fail events the WAN handler has
    processed since the directory was created empty, every site that is
    a key of the directory has a non-empty list in which no two entries
    render as the same text, hence no two entries are equal; and a fail
    event for the member whose address is the only entry of its site
    leaves the directory without that site. *)
Theorem remoteConsuls_invariant (evs : list Event) :
  let s := snd (wanEventHandler evs newServer) in
  (forall dc l,
      remoteConsuls s !! dc = Some l ->
      l <> [] /\ NoDup (AddrString <$> l) /\ NoDup l)
  /\ (forall m dc port e,
        fst (isConsulServer m s) = Done (true, dc, port) ->
        remoteConsuls s !! dc = Some [e] ->
        AddrString e = AddrString {| IP := Addr m; Port := port |} ->
        remoteConsuls (snd (remoteFailed [m] s)) !! dc = None).
Proof.
  intros s. split.
  - intros dc l Hl.
    destruct (dirInv_wanEventHandler evs dc l Hl) as [Hne Hnd].
    split; [exact Hne|]. split; [exact Hnd|].
    exact (NoDup_fmap_1 _ _ Hnd).
  - intros m dc port e Hcl Hl He.
    unfold remoteFailed.
    destruct (forEach_single remoteFailed1 m s) as [-> _].
    destruct (remoteFailed1_dir m s) as [-> _].
    destruct (isConsulServer_classify m s) as [Hfst _].
    unfold failDir1. rewrite <- Hfst, Hcl.
    now apply removeDir_last with (e := e).
Qed.

(** *** Processing a join event twice *)

Lemma remoteJoin_dir (me : list Member) (s : Server) :
  remoteConsuls (snd (remoteJoin me s)) = joinDir me (remoteConsuls s).
Proof.
  revert s. induction me as [|m me IH]; intros s; [reflexivity|].
  unfold remoteJoin in *. cbn [forEach joinDir]. unfold bind.
  destruct (remoteJoin1_dir m s) as [Hdir Hfst].
  destruct (remoteJoin1 m s) as [r s1]. cbn in Hdir, Hfst.
  unfold joinDir1 in *.
  destruct (classify m) as [c|msg]; subst r.
  - now rewrite IH, Hdir.
  - exact Hdir.
Qed.

Lemma addDir_present dc a d : present d dc a = true -> addDir dc a d = d.
Proof. unfold present, addDir. now intros ->. Qed.

Lemma present_addDir dc a d : present (addDir dc a d) dc a = true.
Proof.
  unfold addDir. destruct (existsb _ _) eqn:Hex; [exact Hex|].
  unfold present. rewrite lookup_insert_eq. cbn.
  rewrite existsb_app. cbn. unfold sameAddr at 2.
  rewrite String.eqb_refl. now rewrite orb_true_r.
Qed.

Lemma present_addDir_mono dc a dc' a' d :
  present d dc' a' = true -> present (addDir dc a d) dc' a' = true.
Proof.
  intros Hp. unfold addDir. destruct (existsb _ _) eqn:Hex; [exact Hp|].
  unfold present in *. destruct (decide (dc = dc')) as [<-|Hne].
  - rewrite lookup_insert_eq. cbn. rewrite existsb_app, Hp. reflexivity.
  - now rewrite lookup_insert_ne.
Qed.

Lemma present_joinDir1_mono m dc a d :
  present d dc a = true -> present (joinDir1 m d) dc a = true.
Proof.
  intros Hp. unfold joinDir1.
  destruct (classify m) as [[[[] dc'] port]|msg]; auto.
  now apply present_addDir_mono.
Qed.

Lemma present_joinDir_mono me dc a d :
  present d dc a = true -> present (joinDir me d) dc a = true.
Proof.
  revert d. induction me as [|m me IH]; intros d Hp; [exact Hp|].
  cbn [joinDir]. destruct (classify m) as [c|msg]; [|exact Hp].
  now apply IH, present_joinDir1_mono.
Qed.

Lemma covered_joinDir me d : covered me d -> joinDir me d = d.
Proof.
  induction me as [|m me IH]; [reflexivity|]. cbn [covered joinDir].
  unfold joinDir1.
  destruct (classify m) as [[[[] dc] port]|msg]; auto.
  intros [Hp Hc]. rewrite (addDir_present _ _ _ Hp). now apply IH.
Qed.

Lemma joinDir_covered me d : covered me (joinDir me d).
Proof.
  revert d. induction me as [|m me IH]; intros d; [exact I|].
  cbn [covered joinDir]. unfold joinDir1.
  destruct (classify m) as [[[[] dc] port]|msg]; auto.
  split; [|apply IH].
  apply present_joinDir_mono, present_addDir.
Qed.

Lemma joinDir_idempotent me d : joinDir me (joinDir me d) = joinDir me d.
Proof. apply covered_joinDir, joinDir_covered. Qed.

Lemma remoteJoin_returns (me : list Member) (s : Server) :
  fst (remoteJoin me s) = Done tt ->
  Forall (fun m => exists c, classify m = Done c) me.
Proof.
  revert s. induction me as [|m me IH]; intros s Hr; [constructor|].
  unfold remoteJoin in *. cbn [forEach] in Hr. unfold bind in Hr.
  destruct (remoteJoin1_dir m s) as [_ Hfst].
  destruct (remoteJoin1 m s) as [r s1]. cbn in Hfst.
  destruct (classify m) as [c|msg] eqn:Hc; subst r; [|discriminate].
  constructor; [now exists c|]. now apply (IH s1).
Qed.

Lemma joinDir_present me d m dc port :
  Forall (fun m => exists c, classify m = Done c) me ->
  m ∈ me ->
  classify m = Done (true, dc, port) ->
  present (joinDir me d) dc {| IP := Addr m; Port := port |} = true.
Proof.
  intros Hall. revert d. induction Hall as [|m0 me [c Hc] Hall IH];
    intros d Hin Hm.
  - now apply not_elem_of_nil in Hin.
  - cbn [joinDir]. rewrite Hc. apply elem_of_cons in Hin as [->|Hin].
    + apply present_joinDir_mono. unfold joinDir1. rewrite Hm.
      apply present_addDir.
    + now apply IH.
Qed.

Lemma occurrences_absent (a : TCPAddr) l :
  existsb (sameAddr a) l = false -> occurrences a l = 0%nat.
Proof.
  unfold occurrences. induction l as [|e l IH]; [reflexivity|].
  cbn [existsb]. intros Hex. apply orb_false_elim in Hex as [He Hl].
  rewrite filter_cons_False; [now apply IH|].
  intros Heq. apply sameAddr_true in Heq. congruence.
Qed.

Lemma occurrences_once (a : TCPAddr) l :
  NoDup (AddrString <$> l) ->
  existsb (sameAddr a) l = true ->
  occurrences a l = 1%nat.
Proof.
  induction l as [|e l IH]; [discriminate|].
  rewrite fmap_cons, NoDup_cons. intros [Hnotin Hnd] Hex.
  unfold occurrences.
  destruct (decide (AddrString e = AddrString a)) as [Heq|Hne].
  - rewrite filter_cons_True by exact Heq. cbn [length]. f_equal.
    apply occurrences_absent.
    destruct (existsb (sameAddr a) l) eqn:Hl; [|reflexivity].
    apply existsb_sameAddr in Hl. rewrite <- Heq in Hl. contradiction.
  - rewrite filter_cons_False by exact Hne. apply IH; [exact Hnd|].
    cbn [existsb] in Hex. apply orb_prop in Hex as [He|Hl]; [|exact Hl].
    apply sameAddr_true in He. contradiction.
Qed.

(** C5: when the WAN handler processes a join event a second time, the
    directory stays as the first processing left it; a participant of
    the event whose address the first processing left in the list of its
    site is still there once and only once, and every participant of an
    event that was processed to its end is in that case. *)
Theorem remoteJoin_twice (evs : list Event) (me : list Member) :
  let s0 := snd (wanEventHandler evs newServer) in
  let s1 := snd (remoteJoin me s0) in
  let s2 := snd (remoteJoin me s1) in
  remoteConsuls s2 = remoteConsuls s1
  /\ (forall m dc port,
        m ∈ me ->
        fst (isConsulServer m s1) = Done (true, dc, port) ->
        let addr := {| IP := Addr m; Port := port |} in
        (fst (remoteJoin me s0) = Done tt ->
         present (remoteConsuls s1) dc addr = true)
        /\ (present (remoteConsuls s1) dc addr = true ->
            exists l, remoteConsuls s2 !! dc = Some l
                      /\ occurrences addr l = 1%nat)).
Proof.
  intros s0 s1 s2.
  assert (Hsame : remoteConsuls s2 = remoteConsuls s1).
  { unfold s2, s1. rewrite !remoteJoin_dir. apply joinDir_idempotent. }
  split; [exact Hsame|].
  intros m dc port Hin Hcl addr.
  destruct (isConsulServer_classify m s1) as [Hfst _].
  rewrite Hfst in Hcl. split.
  - intros Hret. unfold s1. rewrite remoteJoin_dir.
    apply joinDir_present; [|exact Hin|exact Hcl].
    now apply (remoteJoin_returns me s0).
  - intros Hp. rewrite Hsame.
    assert (Hinv : dirInv (remoteConsuls s1)).
    { apply (keepsDir_forEach dirInv remoteJoin1 me keepsDir_remoteJoin1).
      apply dirInv_wanEventHandler. }
    unfold present in Hp.
    destruct (remoteConsuls s1 !! dc) as [l|] eqn:Hl; [|discriminate].
    exists l. split; [reflexivity|].
    apply occurrences_once; [|exact Hp]. now apply (Hinv dc l).
Qed.

End Directory.

(** ** The LAN handler and the Raft join loop *)

Lemma isConsulServer_participant_silent
    (m : Member) (s : Server) (dc : string) (port : Z) :
  fst (isConsulServer m s) = Done (true, dc, port) ->
  isConsulServer m s = (Done (true, dc, port), s).
Proof.
  unfold isConsulServer.
  destruct (negb (Strings.HasPrefix (Role m) "consul:")); [discriminate|].
  unfold bind, index, ret, panic, Printf.
  destruct (Strings.SplitN (Role m) ":" 3 !! 1%nat); [|discriminate].
  destruct (Strings.SplitN (Role m) ":" 3 !! 2%nat); [|discriminate].
  destruct (Strconv.Atoi s1) as [p [err|]]; cbn; [discriminate|].
  now intros ->.
Qed.

Lemma memberStatus_absent (members : list Member) (name : string) :
  Forall (fun x => Name x <> name) members ->
  memberStatus members name = StatusNone.
Proof.
  induction 1 as [|x members Hx _ IH]; [reflexivity|].
  cbn [memberStatus]. apply String.eqb_neq in Hx. now rewrite Hx.
Qed.

Lemma memberStatus_first (pre post : list Member) (m : Member) (name : string) :
  Forall (fun x => Name x <> name) pre ->
  Name m = name ->
  memberStatus (pre ++ m :: post) name = Status m.
Proof.
  intros Hpre Hm. induction Hpre as [|x pre Hx _ IH]; cbn [app memberStatus].
  - apply String.eqb_eq in Hm. now rewrite Hm.
  - apply String.eqb_neq in Hx. now rewrite Hx.
Qed.

Section Reconciler.

Context `{!NetAddr TCPAddr}.
Variable config : Config.

(** C8: when a member of a LAN join event is classified as a participant
    of a site that is not the site of this server, the pass of
    [localJoin] for that member returns, logs one line, the warning that
    names the member and its site, and starts no goroutine: the
    goroutines started are those started before it, and so are their
    add-peer requests; the loop then goes on with the members that
    follow.  The classifier itself answers that the member is a
    participant, and logs nothing. *)
Theorem localJoin_wrong_datacenter
    (pre post : list Member) (m : Member) (s s1 : Server)
    (dc : string) (port : Z) :
  localJoin config pre s = (Done tt, s1) ->
  fst (isConsulServer m s1) = Done (true, dc, port) ->
  dc <> Datacenter config ->
  let s2 := snd (localJoin config (pre ++ [m]) s) in
  isConsulServer m s1 = (Done (true, dc, port), s1)
  /\ fst (localJoin config (pre ++ [m]) s) = Done tt
  /\ logged s2 = logged s1 ++ [wrongCluster m dc]
  /\ spawned s2 = spawned s1
  /\ (forall world fuel,
        addPeerRequests config world s2 fuel
        = addPeerRequests config world s1 fuel)
  /\ localJoin config (pre ++ m :: post) s = localJoin config post s2.
Proof.
  intros Hpre Hcl Hdc.
  assert (Hm : localJoin1 config m s1
               = (Done tt, logLine s1 (wrongCluster m dc))).
  { unfold localJoin1, bind.
    rewrite (isConsulServer_participant_silent m s1 dc port Hcl). cbn.
    apply String.eqb_neq in Hdc. now rewrite Hdc. }
  assert (Hone : localJoin config (pre ++ [m]) s
                 = (Done tt, logLine s1 (wrongCluster m dc))).
  { unfold localJoin in *. rewrite (forEach_app _ _ _ _ _ Hpre).
    cbn [forEach]. unfold bind. now rewrite Hm. }
  intros s2. unfold s2. rewrite Hone. cbn [fst snd].
  split; [exact (isConsulServer_participant_silent m s1 dc port Hcl)|].
  repeat split.
  unfold localJoin in *.
  change (pre ++ m :: post) with (pre ++ [m] ++ post).
  rewrite app_assoc. now apply forEach_app.
Qed.

Variable world : World.

(** C6: for a member that bears the name of this node,
    [joinConsulServer] returns at once: it asks nothing of Raft or of
    Serf, so it neither reads the peers nor requests that a peer be
    added. *)
Theorem joinConsulServer_self (m : Member) (port : Z) (fuel : nat) :
  Name m = NodeName config ->
  joinConsulServer config world m port fuel = (Returned, []).
Proof.
  intros Hself. unfold joinConsulServer.
  apply String.eqb_eq in Hself. now rewrite Hself.
Qed.

(** C7: for a member that is not this node, when the peers read in the
    first pass of the loop hold an address that renders as the address
    of the member, [joinConsulServer] returns after that one read and
    requests no peer to be added. *)
Theorem joinConsulServer_already_peer
    (m : Member) (port : Z) (peers : list TCPAddr) (p : TCPAddr)
    (fuel : nat) :
  Name m <> NodeName config ->
  raftPeers world 0 = inl peers ->
  p ∈ peers ->
  AddrString p = AddrString {| IP := Addr m; Port := port |} ->
  joinConsulServer config world m port (S fuel) = (Returned, [ActPeers]).
Proof.
  intros Hother Hpeers Hin Hp. unfold joinConsulServer.
  apply String.eqb_neq in Hother. rewrite Hother.
  cbn [joinLoop]. rewrite Hpeers.
  replace (existsb _ peers) with true; [reflexivity|].
  symmetry. apply existsb_exists. exists p.
  split; [now apply list_elem_of_In|]. now apply sameAddr_true.
Qed.

(** C9: [memberStatus] answers the status of the first member of the
    list that bears the name, and [StatusNone] when none does; so in any
    pass of the join loop in which the peers are read and do not hold
    the address, a candidate that is not in the LAN members is not
    alive, and the loop returns without requesting that a peer be
    added. *)
Theorem memberStatus_first_match (name : string) :
  (forall (pre post : list Member) (m : Member),
      Forall (fun x => Name x <> name) pre ->
      Name m = name ->
      memberStatus (pre ++ m :: post) name = Status m)
  /\ (forall members : list Member,
        Forall (fun x => Name x <> name) members ->
        memberStatus members name = StatusNone)
  /\ (forall (m : Member) (addr : TCPAddr) (peers : list TCPAddr)
             (fuel round : nat),
        Name m = name ->
        raftPeers world round = inl peers ->
        existsb (sameAddr addr) peers = false ->
        Forall (fun x => Name x <> name) (serfLANMembers world round) ->
        joinLoop world m addr (S fuel) round
        = (Returned, [ActPeers; ActMembers])).
Proof.
  split; [|split].
  - intros pre post m. apply memberStatus_first.
  - intros members. apply memberStatus_absent.
  - intros m addr peers fuel round Hm Hpeers Hex Habs.
    cbn [joinLoop]. rewrite Hpeers, Hex, Hm.
    now rewrite (memberStatus_absent _ _ Habs).
Qed.

End Reconciler.

(** ** The handlers at work *)

(** A member of the local site joins the LAN pool: one goroutine, which
    requests the peer until Raft accepts it. *)
Example localJoin_same_datacenter :
  spawned (snd (lanEventHandler dc1 [EventMemberJoin [node2]] newServer))
  = [(node2, 8300)]
  /\ @joinConsulServer tcp4 dc1 freshWorld node2 8300 5
     = (Returned,
        [ActPeers; ActMembers; ActAddPeer (addrOf node2 8300);
         ActLog "[ERR] Failed to add raft peer: not leader";
         ActSleep; ActPollShutdown;
         ActPeers; ActMembers; ActAddPeer (addrOf node2 8300)]).
Proof. split; reflexivity. Qed.

(** A server joins the WAN pool and then fails: its site enters the
    directory and leaves it. *)
Example remoteJoin_then_failed :
  remoteConsuls
    (snd (@wanEventHandler tcp4 [EventMemberJoin [node3]] newServer)) !! "dc2"
  = Some [addrOf node3 8300]
  /\ remoteConsuls
       (snd (@wanEventHandler tcp4
               [EventMemberJoin [node3]; EventMemberFailed [node3]]
               newServer))
     = ∅.
Proof. split; vm_compute; reflexivity. Qed.

(** What [Atoi] refuses is refused as a port: a numeral beyond the largest
    [int], and the rest of a tag whose third field holds a colon. *)
Example isConsulServer_refused_ports :
  fst (isConsulServer
         {| Name := "n1"; Addr := []; Role := "consul:dc1:9223372036854775808";
            Status := StatusAlive |} newServer)
  = Done (false, "", 0)
  /\ fst (isConsulServer
            {| Name := "n1"; Addr := []; Role := "consul:dc1:8300:x";
               Status := StatusAlive |} newServer)
     = Done (false, "", 0).
Proof. split; reflexivity. Qed.

Lemma remoteConsuls_invariant_witness :
  remoteConsuls
    (snd (@remoteFailed tcp4 [node3]
            (snd (@wanEventHandler tcp4 [EventMemberJoin [node3]] newServer))))
    !! "dc2"
  = None.
Proof.
  apply (proj2 (@remoteConsuls_invariant tcp4 [EventMemberJoin [node3]])
           node3 "dc2" 8300 (addrOf node3 8300));
    vm_compute; reflexivity.
Defined.

Lemma remoteJoin_twice_witness :
  exists l,
    remoteConsuls
      (snd (@remoteJoin tcp4 [node3; node4]
              (snd (@remoteJoin tcp4 [node3; node4] newServer)))) !! "dc2"
    = Some l
    /\ @occurrences tcp4 (addrOf node4 8300) l = 1%nat.
Proof.
  apply (proj2 (proj2 (@remoteJoin_twice tcp4 [] [node3; node4])
                  node4 "dc2" 8300
                  (list_elem_of_further _ _ _ (list_elem_of_here _ _))
                  eq_refl)).
  vm_compute; reflexivity.
Defined.

Lemma localJoin_wrong_datacenter_witness :
  logged (snd (localJoin dc1 [node3] newServer))
  = ["[WARN] Consul server node3 for datacenter dc2 has joined wrong cluster"]
  /\ spawned (snd (localJoin dc1 [node3] newServer)) = [].
Proof.
  destruct (@localJoin_wrong_datacenter tcp4 dc1 [] [] node3
              newServer newServer "dc2" 8300 eq_refl eq_refl)
    as (_ & _ & Hlog & Hspawn & _).
  - discriminate.
  - split; [exact Hlog | exact Hspawn].
Defined.

Lemma joinConsulServer_self_witness :
  @joinConsulServer tcp4 dc1 freshWorld
    {| Name := "node1"; Addr := [Byte.x0a; Byte.x00; Byte.x00; Byte.x01];
       Role := "consul:dc1:8300"; Status := StatusAlive |} 8300 3
  = (Returned, []).
Proof. apply (@joinConsulServer_self tcp4 dc1 freshWorld). reflexivity. Defined.

Lemma joinConsulServer_already_peer_witness :
  @joinConsulServer tcp4 dc1 peerWorld node2 8300 1 = (Returned, [ActPeers]).
Proof.
  apply (@joinConsulServer_already_peer tcp4 dc1 peerWorld node2 8300
           [addrOf node2 8300] (addrOf node2 8300) 0%nat).
  - discriminate.
  - reflexivity.
  - apply list_elem_of_here.
  - reflexivity.
Defined.

Lemma memberStatus_first_match_witness :
  memberStatus [node3; node2; node4] "node2" = StatusAlive
  /\ memberStatus [node3; node4] "node2" = StatusNone
  /\ @joinLoop tcp4 emptyLANWorld node2 (addrOf node2 8300) 1 0
     = (Returned, [ActPeers; ActMembers]).
Proof.
  destruct (@memberStatus_first_match tcp4 emptyLANWorld "node2")
    as (Hfirst & Hnone & Hloop).
  split; [|split].
  - apply (Hfirst [node3] [node4] node2); [|reflexivity].
    repeat constructor; discriminate.
  - apply Hnone. repeat constructor; discriminate.
  - apply (Hloop node2 (addrOf node2 8300) [] 0%nat 0%nat);
      [reflexivity | reflexivity | reflexivity | constructor].
Defined.

(** * Further properties of the handlers *)

(** ** The classifier, read backwards *)

Lemma prefix_app_inv (p s : string) :
  String.prefix p s = true -> exists r, s = p +:+ r.
Proof.
  revert s. induction p as [|c p IH]; intros s Hp.
  - now exists s.
  - destruct s as [|c' s]; [discriminate|]. cbn in Hp.
    destruct (Ascii.ascii_dec c c') as [->|]; [|discriminate].
    destruct (IH s Hp) as [r ->]. now exists r.
Qed.

Lemma cut_Some_inv sep (s a r : string) :
  Strings.cut sep s = Some (a, r) ->
  s = a +:+ String sep r /\ no_sep sep a = true.
Proof.
  revert a. induction s as [|c s IH]; intros a Hc; [discriminate|].
  cbn in Hc. destruct (Ascii.eqb c sep) eqn:Heq.
  - apply Ascii.eqb_eq in Heq. inversion Hc; subst. now split.
  - destruct (Strings.cut sep s) as [[a' r']|]; [|discriminate].
    inversion Hc; subst. destruct (IH a' eq_refl) as [-> Ha].
    split; [reflexivity|]. cbn. now rewrite Heq, Ha.
Qed.

Lemma cut_None_inv sep (s : string) :
  Strings.cut sep s = None -> no_sep sep s = true.
Proof.
  induction s as [|c s IH]; [reflexivity|]. cbn.
  destruct (Ascii.eqb c sep); [discriminate|].
  destruct (Strings.cut sep s) as [[a r]|]; [discriminate|].
  intros _. now rewrite IH.
Qed.

(** A string holds no separator, or is a field, a separator and a rest. *)
Lemma no_sep_or_cut sep (s : string) :
  no_sep sep s = true
  \/ exists a r, s = a +:+ String sep r /\ no_sep sep a = true.
Proof.
  destruct (Strings.cut sep s) as [[a r]|] eqn:Hc.
  - right. exists a, r. now apply cut_Some_inv.
  - left. now apply cut_None_inv.
Qed.

(** [Atoi] on a numeral, whatever its value. *)
Lemma Atoi_numeral (s : string) :
  is_signed_decimal s = true ->
  Strconv.Atoi s
  = if signed_decimal s <? Strconv.minInt
    then (Strconv.minInt, Some Strconv.ErrRange)
    else if Strconv.maxInt <? signed_decimal s
         then (Strconv.maxInt, Some Strconv.ErrRange)
         else (signed_decimal s, None).
Proof.
  assert (Hbody : forall (neg : bool) body, is_decimal body = true ->
    match body with
    | EmptyString => (0, Some Strconv.ErrSyntax)
    | _ =>
        match Strconv.parse_digits body 0 with
        | None => (0, Some Strconv.ErrSyntax)
        | Some v =>
            let n := if neg then - v else v in
            if n <? Strconv.minInt
            then (Strconv.minInt, Some Strconv.ErrRange)
            else if Strconv.maxInt <? n
                 then (Strconv.maxInt, Some Strconv.ErrRange)
                 else (n, None)
        end
    end
    = let n := if neg then - decimal body else decimal body in
      if n <? Strconv.minInt then (Strconv.minInt, Some Strconv.ErrRange)
      else if Strconv.maxInt <? n
           then (Strconv.maxInt, Some Strconv.ErrRange)
           else (n, None)).
  { intros neg [|c b] Hd; [discriminate|].
    rewrite (parse_digits_decimal _ 0 Hd). now rewrite Z.mul_0_l, Z.add_0_l. }
  intros Hs. unfold Strconv.Atoi.
  destruct s as [|c r]; [discriminate|].
  destruct (Ascii.ascii_dec c "+") as [->|Hp].
  { exact (Hbody false r Hs). }
  destruct (Ascii.ascii_dec c "-") as [->|Hm].
  { exact (Hbody true r Hs). }
  assert (Hsplit : Strconv.split_sign (String c r) = (false, String c r)).
  { unfold Strconv.split_sign.
    destruct c as [[] [] [] [] [] [] [] []]; try reflexivity; congruence. }
  assert (His : is_signed_decimal (String c r) = is_decimal (String c r)).
  { unfold is_signed_decimal.
    destruct c as [[] [] [] [] [] [] [] []]; try reflexivity; congruence. }
  assert (Hv : signed_decimal (String c r) = decimal (String c r)).
  { unfold signed_decimal.
    destruct c as [[] [] [] [] [] [] [] []]; try reflexivity; congruence. }
  rewrite Hsplit, Hv. rewrite His in Hs.
  exact (Hbody false (String c r) Hs).
Qed.

(** [Atoi] returns no error only on a numeral whose value fits. *)
Lemma Atoi_ok_inv (s : string) (n : Z) :
  Strconv.Atoi s = (n, None) ->
  is_signed_decimal s = true /\ signed_decimal s = n /\ fits_int n.
Proof.
  intros Hok. destruct (is_signed_decimal s) eqn:Hs.
  - rewrite (Atoi_numeral s Hs) in Hok.
    destruct (Z.ltb_spec (signed_decimal s) Strconv.minInt); [discriminate|].
    destruct (Z.ltb_spec Strconv.maxInt (signed_decimal s)); [discriminate|].
    inversion Hok; subst. unfold fits_int. repeat split; lia.
  - rewrite (Atoi_not_decimal s Hs) in Hok. discriminate.
Qed.

(** The three shapes of a tag: no marker, the marker and one field, the
    marker and two fields. *)
Lemma role_shapes (role : string) :
  Strings.HasPrefix role "consul:" = false
  \/ (exists S, role = "consul:" +:+ S /\ no_sep ":" S = true)
  \/ (exists S P, role = roleTag S P /\ no_sep ":" S = true).
Proof.
  destruct (Strings.HasPrefix role "consul:") eqn:Hp; [right|now left].
  apply prefix_app_inv in Hp as [rest ->].
  destruct (no_sep_or_cut ":" rest) as [Hn|(S & P & -> & HS)].
  - left. now exists rest.
  - right. now exists S, P.
Qed.

Lemma isConsulServer_panics_shortTag (m : Member) (s : Server) :
  (exists msg, fst (isConsulServer m s) = Panicked msg)
  <-> shortTag (Role m).
Proof.
  split.
  - intros [msg Hpanic].
    destruct (role_shapes (Role m)) as [Hp|[Hshort|(S & P & Hrole & HS)]].
    + unfold isConsulServer in Hpanic. rewrite Hp in Hpanic. discriminate.
    + exact Hshort.
    + rewrite (isConsulServer_roleTag m S P s Hrole HS) in Hpanic.
      destruct (Strconv.Atoi P) as [port [err|]]; discriminate.
  - intros (S & Hrole & HS). exists "index out of range".
    now rewrite (isConsulServer_two_fields_panics m S s Hrole HS).
Qed.

(** X1: the classifier panics on the tags made of the marker and of one
    field without a colon, and on no other tag. *)
Theorem isConsulServer_panics_iff (m : Member) (s : Server) :
  (exists msg, fst (isConsulServer m s) = Panicked msg)
  <-> exists S, Role m = "consul:" +:+ S /\ no_sep ":" S = true.
Proof. exact (isConsulServer_panics_shortTag m s). Qed.

(** X2: the classifier answers that a member is a participant of [dc] at
    [port] only when its tag is [consul:dc:P], with no colon in [dc] and
    [P] a decimal numeral, possibly signed, whose value is [port] and fits
    Go's [int]. *)
Theorem isConsulServer_participant_inv
    (m : Member) (s : Server) (dc : string) (port : Z) :
  fst (isConsulServer m s) = Done (true, dc, port) ->
  exists P, Role m = roleTag dc P
            /\ no_sep ":" dc = true
            /\ is_signed_decimal P = true
            /\ signed_decimal P = port
            /\ fits_int port.
Proof.
  intros Hcl.
  destruct (role_shapes (Role m)) as [Hp|[(S & Hrole & HS)|(S & P & Hrole & HS)]].
  - unfold isConsulServer in Hcl. rewrite Hp in Hcl. discriminate.
  - rewrite (isConsulServer_two_fields_panics m S s Hrole HS) in Hcl.
    discriminate.
  - rewrite (isConsulServer_roleTag m S P s Hrole HS) in Hcl.
    destruct (Strconv.Atoi P) as [n [err|]] eqn:Hatoi; [discriminate|].
    inversion Hcl; subst. exists P.
    destruct (Atoi_ok_inv P port Hatoi) as (Hnum & Hval & Hfit).
    split; [|split; [|split; [|split]]]; assumption.
Qed.

Lemma isConsulServer_participant_inv_witness :
  exists P, Role node2 = roleTag "dc1" P
            /\ no_sep ":" "dc1" = true
            /\ is_signed_decimal P = true
            /\ signed_decimal P = 8300
            /\ fits_int 8300.
Proof.
  exact (isConsulServer_participant_inv node2 newServer "dc1" 8300 eq_refl).
Defined.

(** X3: the classifier reads nothing of the server and writes nothing but
    the log: its answer is the same in every server, the directory and the
    goroutines are as before, and the log is as before or longer by the
    one line of the parse failure, in which case the answer is that the
    member is no participant. *)
Theorem isConsulServer_effects (m : Member) (s : Server) :
  fst (isConsulServer m s) = fst (isConsulServer m newServer)
  /\ remoteConsuls (snd (isConsulServer m s)) = remoteConsuls s
  /\ spawned (snd (isConsulServer m s)) = spawned s
  /\ (logged (snd (isConsulServer m s)) = logged s
      \/ (logged (snd (isConsulServer m s))
          = logged s ++ [failedToParse (Role m)]
          /\ fst (isConsulServer m s) = Done (false, "", 0))).
Proof.
  destruct (role_shapes (Role m)) as [Hp|[(S & Hrole & HS)|(S & P & Hrole & HS)]].
  - unfold isConsulServer. rewrite Hp. cbn.
    repeat (split; [reflexivity|]). now left.
  - rewrite !(isConsulServer_two_fields_panics m S _ Hrole HS). cbn.
    repeat (split; [reflexivity|]). now left.
  - rewrite !(isConsulServer_roleTag m S P _ Hrole HS).
    destruct (Strconv.Atoi P) as [n [err|]]; cbn;
      repeat (split; [reflexivity|]); [right|left]; now repeat split.
Qed.

(** ** The directory, entry by entry *)

Section DirectoryEntries.

Context `{!NetAddr TCPAddr}.

Implicit Types (d : gmap string (list TCPAddr)) (l : list TCPAddr).

Lemma existsb_sameAddr_Permutation (a : TCPAddr) l l' :
  l ≡ₚ l' -> existsb (sameAddr a) l = existsb (sameAddr a) l'.
Proof.
  intros Hperm. apply eq_true_iff_eq. rewrite !existsb_sameAddr.
  now rewrite Hperm.
Qed.

(** The site of [dc] after a removal holds what [swapRemove] keeps. *)
Lemma removeDir_lookup dc (a : TCPAddr) d :
  default [] (removeDir dc a d !! dc) = swapRemove a (default [] (d !! dc)).
Proof.
  unfold removeDir.
  destruct (Nat.eqb_spec (length (swapRemove a (default [] (d !! dc)))) 0)
    as [Hlen|Hlen].
  - rewrite lookup_delete_eq. cbn. symmetry. now apply nil_length_inv.
  - now rewrite lookup_insert_eq.
Qed.

Lemma removeDir_lookup_ne dc dc' (a : TCPAddr) d :
  dc <> dc' -> removeDir dc a d !! dc' = d !! dc'.
Proof.
  intros Hne. unfold removeDir. destruct (Nat.eqb _ _).
  - now rewrite lookup_delete_ne.
  - now rewrite lookup_insert_ne.
Qed.

Lemma addDir_lookup_ne dc dc' (a : TCPAddr) d :
  dc <> dc' -> addDir dc a d !! dc' = d !! dc'.
Proof.
  intros Hne. unfold addDir. destruct (existsb _ _); [reflexivity|].
  now rewrite lookup_insert_ne.
Qed.

Lemma swapRemove_absent (a : TCPAddr) l :
  NoDup (AddrString <$> l) -> existsb (sameAddr a) (swapRemove a l) = false.
Proof.
  intros Hnd. destruct (existsb (sameAddr a) l) eqn:Hex.
  - apply swapRemove_found in Hex as (x & Hx & Hperm).
    rewrite <- Hperm, fmap_cons in Hnd. apply NoDup_cons in Hnd as [Hnotin _].
    apply sameAddr_true in Hx. rewrite Hx in Hnotin.
    destruct (existsb (sameAddr a) (swapRemove a l)) eqn:Hex'; [|reflexivity].
    apply existsb_sameAddr in Hex'. contradiction.
  - now rewrite (swapRemove_not_found _ _ Hex).
Qed.

Lemma swapRemove_other (a a' : TCPAddr) l :
  AddrString a' <> AddrString a ->
  existsb (sameAddr a') (swapRemove a l) = existsb (sameAddr a') l.
Proof.
  intros Hne. destruct (existsb (sameAddr a) l) eqn:Hex.
  - apply swapRemove_found in Hex as (x & Hx & Hperm).
    rewrite <- (existsb_sameAddr_Permutation a' _ _ Hperm). cbn.
    apply sameAddr_true in Hx.
    replace (sameAddr a' x) with false; [reflexivity|].
    symmetry. apply not_true_is_false. intros Hx'.
    apply sameAddr_true in Hx'. congruence.
  - now rewrite (swapRemove_not_found _ _ Hex).
Qed.

Lemma swapRemove_appended (a : TCPAddr) l :
  existsb (sameAddr a) l = false -> swapRemove a (l ++ [a]) = l.
Proof.
  intros Hex. unfold swapRemove.
  destruct (list_find _ (l ++ [a])) as [[i x]|] eqn:Hfind.
  - apply list_find_Some in Hfind as (Hi & Hx & _).
    assert (i = length l) as ->.
    { destruct (decide (i < length l)%nat) as [Hlt|Hge].
      - rewrite lookup_app_l in Hi by exact Hlt.
        assert (existsb (sameAddr a) l = true); [|congruence].
        apply existsb_exists. exists x. split; [|exact Hx].
        apply list_elem_of_In. eapply list_elem_of_lookup_2, Hi.
      - apply lookup_lt_Some in Hi. rewrite length_app in Hi. cbn in Hi. lia. }
    rewrite length_app, Nat.add_1_r. cbn [Nat.sub]. rewrite Nat.sub_0_r.
    rewrite list_lookup_middle by reflexivity.
    rewrite insert_app_r_alt, Nat.sub_diag by lia. cbn.
    apply take_app_length.
  - apply list_find_None in Hfind. rewrite Forall_app in Hfind.
    destruct Hfind as [_ Ha]. rewrite Forall_singleton in Ha.
    exfalso. apply Ha. apply sameAddr_true. reflexivity.
Qed.

Lemma failed_single_dir (m : Member) (s : Server) (dc : string) (port : Z) :
  fst (isConsulServer m s) = Done (true, dc, port) ->
  remoteConsuls (snd (remoteFailed [m] s))
  = removeDir dc {| IP := Addr m; Port := port |} (remoteConsuls s).
Proof.
  intros Hcl. unfold remoteFailed.
  destruct (forEach_single remoteFailed1 m s) as [-> _].
  destruct (remoteFailed1_dir m s) as [-> _].
  destruct (isConsulServer_classify m s) as [Hfst _].
  unfold failDir1. now rewrite <- Hfst, Hcl.
Qed.

Lemma join_single_dir (m : Member) (s : Server) (dc : string) (port : Z) :
  fst (isConsulServer m s) = Done (true, dc, port) ->
  remoteConsuls (snd (remoteJoin [m] s))
  = addDir dc {| IP := Addr m; Port := port |} (remoteConsuls s).
Proof.
  intros Hcl. unfold remoteJoin.
  destruct (forEach_single remoteJoin1 m s) as [-> _].
  destruct (remoteJoin1_dir m s) as [-> _].
  destruct (isConsulServer_classify m s) as [Hfst _].
  unfold joinDir1. now rewrite <- Hfst, Hcl.
Qed.

(** X4: after the events the WAN handler has processed, a fail or leave
    event for a participant leaves no entry that renders as its address
    in the list of its site. *)
Theorem remoteFailed_removes
    (evs : list Event) (m : Member) (dc : string) (port : Z) :
  let s := snd (wanEventHandler evs newServer) in
  fst (isConsulServer m s) = Done (true, dc, port) ->
  present (remoteConsuls (snd (remoteFailed [m] s))) dc
          {| IP := Addr m; Port := port |} = false.
Proof.
  intros s Hcl. rewrite (failed_single_dir m s dc port Hcl).
  unfold present. rewrite removeDir_lookup.
  apply swapRemove_absent, dirInv_lookup, dirInv_wanEventHandler.
Qed.

(** X5: a fail or leave event for a participant changes nothing for the
    other addresses: an address of another site, or one that renders
    otherwise, is in the directory after the event exactly when it was
    before, and the lists of the other sites are the same. *)
Theorem remoteFailed_keeps_others
    (m : Member) (s : Server) (dc : string) (port : Z)
    (dc' : string) (a' : TCPAddr) :
  fst (isConsulServer m s) = Done (true, dc, port) ->
  dc' <> dc \/ AddrString a' <> AddrString {| IP := Addr m; Port := port |} ->
  present (remoteConsuls (snd (remoteFailed [m] s))) dc' a'
  = present (remoteConsuls s) dc' a'
  /\ (dc' <> dc ->
      remoteConsuls (snd (remoteFailed [m] s)) !! dc'
      = remoteConsuls s !! dc').
Proof.
  intros Hcl Hother. rewrite (failed_single_dir m s dc port Hcl).
  split.
  - unfold present. destruct (decide (dc = dc')) as [<-|Hne].
    + destruct Hother as [Hdc|Ha]; [contradiction|].
      rewrite removeDir_lookup. now apply swapRemove_other.
    + now rewrite removeDir_lookup_ne.
  - intros Hne. apply removeDir_lookup_ne. congruence.
Qed.

(** X6: a join event for a participant changes nothing for the other
    addresses either, and the address of the participant is in the list
    of its site after the event. *)
Theorem remoteJoin_adds_only
    (m : Member) (s : Server) (dc : string) (port : Z)
    (dc' : string) (a' : TCPAddr) :
  fst (isConsulServer m s) = Done (true, dc, port) ->
  dc' <> dc \/ AddrString a' <> AddrString {| IP := Addr m; Port := port |} ->
  present (remoteConsuls (snd (remoteJoin [m] s))) dc
          {| IP := Addr m; Port := port |} = true
  /\ present (remoteConsuls (snd (remoteJoin [m] s))) dc' a'
     = present (remoteConsuls s) dc' a'
  /\ (dc' <> dc ->
      remoteConsuls (snd (remoteJoin [m] s)) !! dc'
      = remoteConsuls s !! dc').
Proof.
  intros Hcl Hother. rewrite (join_single_dir m s dc port Hcl).
  split; [apply present_addDir|]. split.
  - unfold present. destruct (decide (dc = dc')) as [<-|Hne].
    + destruct Hother as [Hdc|Ha]; [contradiction|].
      unfold addDir.
      destruct (existsb (sameAddr {| IP := Addr m; Port := port |})
                  (default [] (remoteConsuls s !! dc))); [reflexivity|].
      rewrite lookup_insert_eq. cbn. rewrite existsb_app. cbn.
      replace (sameAddr a' {| IP := Addr m; Port := port |}) with false.
      * now rewrite !orb_false_r.
      * symmetry. apply not_true_is_false. intros Hx.
        apply sameAddr_true in Hx. congruence.
    + now rewrite addDir_lookup_ne.
  - intros Hne. apply addDir_lookup_ne. congruence.
Qed.

Lemma removeDir_addDir dc (a : TCPAddr) d :
  dirInv d -> present d dc a = false -> removeDir dc a (addDir dc a d) = d.
Proof.
  intros Hd Hp. unfold present in Hp. unfold addDir. rewrite Hp.
  unfold removeDir. rewrite lookup_insert_eq. cbn.
  rewrite (swapRemove_appended _ _ Hp).
  destruct (d !! dc) as [l|] eqn:Hl; cbn.
  - destruct (Hd dc l Hl) as [Hne _].
    destruct l as [|x l]; [contradiction|]. cbn.
    rewrite insert_insert_eq. now apply insert_id.
  - rewrite delete_insert_eq. now apply delete_id.
Qed.

(** X7: after the events the WAN handler has processed, a join event for
    a participant whose address is not in the list of its site, followed
    by a fail event for it, gives back the directory as it was. *)
Theorem remoteJoin_remoteFailed_roundtrip
    (evs : list Event) (m : Member) (dc : string) (port : Z) :
  let s := snd (wanEventHandler evs newServer) in
  fst (isConsulServer m s) = Done (true, dc, port) ->
  present (remoteConsuls s) dc {| IP := Addr m; Port := port |} = false ->
  remoteConsuls (snd (remoteFailed [m] (snd (remoteJoin [m] s))))
  = remoteConsuls s.
Proof.
  intros s Hcl Hp.
  assert (Hcl' : fst (isConsulServer m (snd (remoteJoin [m] s)))
                 = Done (true, dc, port)).
  { destruct (isConsulServer_classify m (snd (remoteJoin [m] s))) as [-> _].
    destruct (isConsulServer_classify m s) as [<- _]. exact Hcl. }
  rewrite (failed_single_dir m _ dc port Hcl').
  rewrite (join_single_dir m s dc port Hcl).
  apply removeDir_addDir; [apply dirInv_wanEventHandler|exact Hp].
Qed.

Lemma remoteConsuls_lookup_default d dc (a : TCPAddr) :
  a ∈ default [] (d !! dc) -> exists l, d !! dc = Some l /\ a ∈ l.
Proof.
  destruct (d !! dc) as [l|]; cbn; intros Ha.
  - now exists l.
  - now apply not_elem_of_nil in Ha.
Qed.

Lemma fromMembers_mono (ms ms' : list Member) d :
  ms ⊆ ms' -> fromMembers ms d -> fromMembers ms' d.
Proof.
  intros Hsub Hd dc l a Hl Ha.
  destruct (Hd dc l a Hl Ha) as (m & port & Hm & Hcl & ->).
  exists m, port. split; [now apply Hsub|]. now split.
Qed.

Lemma fromMembers_joinDir1 (ms : list Member) (m : Member) d :
  m ∈ ms -> fromMembers ms d -> fromMembers ms (joinDir1 m d).
Proof.
  intros Hm Hd. unfold joinDir1.
  destruct (classify m) as [[[[] dc] port]|msg] eqn:Hcl; auto.
  unfold addDir. destruct (existsb _ _); [exact Hd|].
  intros dc' l a Hl Ha. destruct (decide (dc = dc')) as [<-|Hne].
  - rewrite lookup_insert_eq in Hl. inversion Hl; subst l.
    apply elem_of_app in Ha as [Ha|Ha].
    + destruct (remoteConsuls_lookup_default d dc a Ha) as [l0 [Hl0 Ha0]].
      exact (Hd dc l0 a Hl0 Ha0).
    + apply list_elem_of_singleton in Ha. subst a. now exists m, port.
  - rewrite lookup_insert_ne in Hl by exact Hne. exact (Hd dc' l a Hl Ha).
Qed.

Lemma fromMembers_joinDir (ms me : list Member) d :
  fromMembers ms d -> fromMembers (ms ++ me) (joinDir me d).
Proof.
  revert ms d. induction me as [|m me IH]; intros ms d Hd.
  - now rewrite app_nil_r.
  - cbn [joinDir]. destruct (classify m) as [c|msg] eqn:Hcl.
    + replace (ms ++ m :: me) with ((ms ++ [m]) ++ me)
        by now rewrite <- app_assoc.
      apply IH. apply fromMembers_joinDir1.
      * apply elem_of_app. right. apply list_elem_of_here.
      * apply (fromMembers_mono ms); [|exact Hd].
        intros x Hx. apply elem_of_app. now left.
    + apply (fromMembers_mono ms); [|exact Hd].
      intros x Hx. apply elem_of_app. now left.
Qed.

Lemma swapRemove_subseteq (a : TCPAddr) l : swapRemove a l ⊆ l.
Proof.
  destruct (existsb (sameAddr a) l) eqn:Hex.
  - apply swapRemove_found in Hex as (x & _ & Hperm).
    intros y Hy. rewrite <- Hperm. now apply list_elem_of_further.
  - now rewrite (swapRemove_not_found _ _ Hex).
Qed.

Lemma fromMembers_removeDir (ms : list Member) dc (a : TCPAddr) d :
  fromMembers ms d -> fromMembers ms (removeDir dc a d).
Proof.
  intros Hd dc' l x Hl Hx. destruct (decide (dc = dc')) as [<-|Hne].
  - pose proof (removeDir_lookup dc a d) as Hrem. rewrite Hl in Hrem.
    cbn in Hrem. subst l. apply swapRemove_subseteq in Hx.
    destruct (remoteConsuls_lookup_default d dc x Hx) as [l0 [Hl0 Hx0]].
    exact (Hd dc l0 x Hl0 Hx0).
  - rewrite removeDir_lookup_ne in Hl by exact Hne. exact (Hd dc' l x Hl Hx).
Qed.

Lemma keepsDir_fromMembers_remoteFailed1 (ms : list Member) (m : Member) :
  keepsDir (fromMembers ms) (remoteFailed1 m).
Proof.
  intros s Hs. destruct (remoteFailed1_dir m s) as [-> _].
  unfold failDir1. destruct (classify m) as [[[[] dc] port]|msg]; auto.
  now apply fromMembers_removeDir.
Qed.

Lemma fromMembers_wanEventHandler (evs : list Event) (ms : list Member)
    (s : Server) :
  fromMembers ms (remoteConsuls s) ->
  fromMembers (ms ++ joinedMembers evs)
              (remoteConsuls (snd (wanEventHandler evs s))).
Proof.
  revert ms s. induction evs as [|e evs IH]; intros ms s Hs.
  - cbn. now rewrite app_nil_r.
  - unfold wanEventHandler in *. cbn [forEach joinedMembers flat_map].
    fold (joinedMembers evs). unfold bind.
    assert (He : fromMembers
                   (ms ++ match e with EventMemberJoin me => me | _ => [] end)
                   (remoteConsuls (snd (wanDispatch e s)))).
    { destruct e as [me|me|me|ue|repr]; cbn [wanDispatch];
        rewrite ?app_nil_r.
      - rewrite remoteJoin_dir. now apply fromMembers_joinDir.
      - apply (keepsDir_forEach (fromMembers ms) remoteFailed1 me
                 (keepsDir_fromMembers_remoteFailed1 ms)), Hs.
      - apply (keepsDir_forEach (fromMembers ms) remoteFailed1 me
                 (keepsDir_fromMembers_remoteFailed1 ms)), Hs.
      - exact Hs.
      - exact Hs. }
    destruct (wanDispatch e s) as [[[]|msg] s1]; cbn [snd] in He |- *.
    + rewrite app_assoc. now apply IH.
    + refine (fromMembers_mono _ _ _ _ He).
      rewrite app_assoc. intros x Hx. apply elem_of_app. now left.
Qed.

(** X8: whatever events the WAN handler has processed since the directory
    was created empty, every entry of the directory is the address of a
    member of one of the join events, made of its IP and of the port of
    its tag, and is filed under the site of that tag. *)
Theorem remoteConsuls_provenance
    (evs : list Event) (dc : string) (l : list TCPAddr) (a : TCPAddr) :
  remoteConsuls (snd (wanEventHandler evs newServer)) !! dc = Some l ->
  a ∈ l ->
  exists m port,
    m ∈ joinedMembers evs
    /\ fst (isConsulServer m newServer) = Done (true, dc, port)
    /\ a = {| IP := Addr m; Port := port |}.
Proof.
  intros Hl Ha.
  assert (H0 : fromMembers [] (remoteConsuls newServer)).
  { intros dc' l' a' Hl'. cbn in Hl'. now rewrite lookup_empty in Hl'. }
  exact (fromMembers_wanEventHandler evs [] newServer H0 dc l a Hl Ha).
Qed.

Lemma addDir_prefix dc (a : TCPAddr) d dc' :
  default [] (d !! dc') `prefix_of` default [] (addDir dc a d !! dc').
Proof.
  unfold addDir. destruct (existsb _ _); [reflexivity|].
  destruct (decide (dc = dc')) as [<-|Hne].
  - rewrite lookup_insert_eq. cbn. now apply prefix_app_r.
  - now rewrite lookup_insert_ne.
Qed.

Lemma joinDir_prefix (me : list Member) d dc' :
  default [] (d !! dc') `prefix_of` default [] (joinDir me d !! dc').
Proof.
  revert d. induction me as [|m me IH]; intros d; [reflexivity|].
  cbn [joinDir]. destruct (classify m) as [c|msg] eqn:Hcl; [|reflexivity].
  etransitivity; [|apply IH]. unfold joinDir1. rewrite Hcl.
  destruct c as [[[] dc] port]; [|reflexivity]. apply addDir_prefix.
Qed.

(** X9: a join event only appends: in every site, the list before the
    event is the front of the list after it, in the same order, whether
    the handler returns or panics on the way. *)
Theorem remoteJoin_appends (me : list Member) (s : Server) (dc : string) :
  default [] (remoteConsuls s !! dc)
  `prefix_of` default [] (remoteConsuls (snd (remoteJoin me s)) !! dc).
Proof. rewrite remoteJoin_dir. apply joinDir_prefix. Qed.

Lemma remoteFailed_dir (me : list Member) (s : Server) :
  remoteConsuls (snd (remoteFailed me s)) = failDir me (remoteConsuls s).
Proof.
  revert s. induction me as [|m me IH]; intros s; [reflexivity|].
  unfold remoteFailed in *. cbn [forEach failDir]. unfold bind.
  destruct (remoteFailed1_dir m s) as [Hdir Hfst].
  destruct (remoteFailed1 m s) as [r s1]. cbn in Hdir, Hfst.
  unfold failDir1 in *.
  destruct (classify m) as [c|msg]; subst r.
  - now rewrite IH, Hdir.
  - exact Hdir.
Qed.

Lemma removeDir_absent dc (a : TCPAddr) d :
  dirInv d -> present d dc a = false -> removeDir dc a d = d.
Proof.
  intros Hd Hp. unfold present in Hp. unfold removeDir.
  rewrite (swapRemove_not_found _ _ Hp).
  destruct (d !! dc) as [l|] eqn:Hl; cbn.
  - destruct (Hd dc l Hl) as [Hne _].
    destruct l as [|x l]; [contradiction|]. cbn. now apply insert_id.
  - now apply delete_id.
Qed.

Lemma absent_removeDir dc (a : TCPAddr) d dc' (a' : TCPAddr) :
  present d dc' a' = false -> present (removeDir dc a d) dc' a' = false.
Proof.
  unfold present. intros Hp. destruct (decide (dc = dc')) as [<-|Hne].
  - rewrite removeDir_lookup.
    destruct (existsb (sameAddr a') (swapRemove a (default [] (d !! dc))))
      eqn:Hex; [|reflexivity].
    apply existsb_exists in Hex as (x & Hx & Hsame).
    apply list_elem_of_In, swapRemove_subseteq, list_elem_of_In in Hx.
    rewrite <- Hp. symmetry. apply existsb_exists. now exists x.
  - now rewrite removeDir_lookup_ne.
Qed.

Lemma absent_failDir (me : list Member) d dc' (a' : TCPAddr) :
  present d dc' a' = false -> present (failDir me d) dc' a' = false.
Proof.
  revert d. induction me as [|m me IH]; intros d Hp; [exact Hp|].
  cbn [failDir]. destruct (classify m) as [c|msg] eqn:Hcl; [|exact Hp].
  apply IH. unfold failDir1. rewrite Hcl.
  destruct c as [[[] dc] port]; [|exact Hp]. now apply absent_removeDir.
Qed.

Lemma dirInv_failDir1 (m : Member) d : dirInv d -> dirInv (failDir1 m d).
Proof.
  intros Hd. unfold failDir1.
  destruct (classify m) as [[[[] dc] port]|msg]; auto.
  now apply dirInv_removeDir.
Qed.

Lemma dirInv_failDir (me : list Member) d : dirInv d -> dirInv (failDir me d).
Proof.
  revert d. induction me as [|m me IH]; intros d Hd; [exact Hd|].
  cbn [failDir]. destruct (classify m); [|exact Hd].
  now apply IH, dirInv_failDir1.
Qed.

Lemma cleared_failDir (me : list Member) d :
  dirInv d -> cleared me d -> failDir me d = d.
Proof.
  intros Hd. induction me as [|m me IH]; [reflexivity|].
  cbn [cleared failDir]. unfold failDir1.
  destruct (classify m) as [[[[] dc] port]|msg]; auto.
  intros [Hp Hc]. rewrite (removeDir_absent _ _ _ Hd Hp). now apply IH.
Qed.

Lemma failDir_cleared (me : list Member) d :
  dirInv d -> cleared me (failDir me d).
Proof.
  revert d. induction me as [|m me IH]; intros d Hd; [exact I|].
  cbn [cleared failDir]. unfold failDir1.
  destruct (classify m) as [[[[] dc] port]|msg]; auto.
  split; [|now apply IH, dirInv_removeDir].
  apply absent_failDir. unfold present. rewrite removeDir_lookup.
  now apply swapRemove_absent, dirInv_lookup.
Qed.

(** X20: after the events the WAN handler has processed, a fail or leave
    event for a participant whose address is not in the list of its site
    leaves the directory as it is. *)
Theorem remoteFailed_unknown
    (evs : list Event) (m : Member) (dc : string) (port : Z) :
  let s := snd (wanEventHandler evs newServer) in
  fst (isConsulServer m s) = Done (true, dc, port) ->
  present (remoteConsuls s) dc {| IP := Addr m; Port := port |} = false ->
  remoteConsuls (snd (remoteFailed [m] s)) = remoteConsuls s.
Proof.
  intros s Hcl Hp. rewrite (failed_single_dir m s dc port Hcl).
  apply removeDir_absent; [apply dirInv_wanEventHandler|exact Hp].
Qed.

(** X21: when the WAN handler processes a fail or leave event a second
    time, the directory stays as the first processing left it. *)
Theorem remoteFailed_twice (evs : list Event) (me : list Member) :
  let s0 := snd (wanEventHandler evs newServer) in
  let s1 := snd (remoteFailed me s0) in
  let s2 := snd (remoteFailed me s1) in
  remoteConsuls s2 = remoteConsuls s1.
Proof.
  intros s0 s1 s2. unfold s2, s1. rewrite !remoteFailed_dir.
  assert (Hinv : dirInv (remoteConsuls s0)) by apply dirInv_wanEventHandler.
  apply cleared_failDir; [now apply dirInv_failDir|].
  now apply failDir_cleared.
Qed.

End DirectoryEntries.

(** ** What makes the handlers return, and what they write *)

Lemma classify_Done_iff (m : Member) :
  (exists c, classify m = Done c) <-> ~ shortTag (Role m).
Proof.
  rewrite <- (isConsulServer_panics_shortTag m newServer). fold (classify m).
  destruct (classify m) as [c|msg]; split.
  - intros _ [msg' Hmsg]. discriminate.
  - intros _. now exists c.
  - intros [c Hc]. discriminate.
  - intros Hn. exfalso. apply Hn. now exists msg.
Qed.

Lemma forEach_returns {A} (body : A -> M unit) (Q : A -> Prop)
    (xs : list A) (s : Server) :
  (forall x s', fst (body x s') = Done tt <-> Q x) ->
  fst (forEach body xs s) = Done tt <-> Forall Q xs.
Proof.
  intros Hbody. revert s. induction xs as [|x xs IH]; intros s.
  - cbn. split; [constructor|reflexivity].
  - cbn [forEach]. unfold bind. rewrite Forall_cons.
    specialize (Hbody x s).
    destruct (body x s) as [[[]|msg] s1]; cbn [fst] in Hbody |- *.
    + rewrite (IH s1). split; [intros Hxs; split; [now apply Hbody|exact Hxs]|].
      now intros [_ Hxs].
    + split; [discriminate|]. intros [Hx _]. now apply Hbody in Hx.
Qed.

Lemma keeps_forEach {A B} (part : Server -> B) (body : A -> M unit)
    (xs : list A) :
  (forall x, keeps part (body x)) -> keeps part (forEach body xs).
Proof.
  intros Hbody. induction xs as [|x xs IH]; intros s; [reflexivity|].
  cbn [forEach]. unfold bind. pose proof (Hbody x s) as Hx.
  destruct (body x s) as [[[]|msg] s1]; cbn [snd] in Hx |- *; [|exact Hx].
  now rewrite IH.
Qed.

Lemma isConsulServer_keeps_spawned (m : Member) :
  keeps spawned (isConsulServer m).
Proof.
  intros s. destruct (isConsulServer_classify m s) as [_ [-> | ->]];
    reflexivity.
Qed.

Section Returns.

Context `{!NetAddr TCPAddr}.
Variable config : Config.

Lemma remoteJoin1_returns (m : Member) (s : Server) :
  fst (remoteJoin1 m s) = Done tt <-> ~ shortTag (Role m).
Proof.
  destruct (remoteJoin1_dir m s) as [_ ->]. rewrite <- classify_Done_iff.
  destruct (classify m) as [c|msg]; split; try discriminate; eauto.
  intros [c Hc]. discriminate.
Qed.

Lemma remoteFailed1_returns (m : Member) (s : Server) :
  fst (remoteFailed1 m s) = Done tt <-> ~ shortTag (Role m).
Proof.
  destruct (remoteFailed1_dir m s) as [_ ->]. rewrite <- classify_Done_iff.
  destruct (classify m) as [c|msg]; split; try discriminate; eauto.
  intros [c Hc]. discriminate.
Qed.

(** One pass of the loop of [localJoin]: what it answers, the goroutine it
    starts, and the directory. *)
Lemma localJoin1_cases (m : Member) (s : Server) :
  fst (localJoin1 config m s)
  = match classify m with
    | Done _ => Done tt
    | Panicked msg => Panicked msg
    end
  /\ spawned (snd (localJoin1 config m s))
     = spawned s ++ option_list (qualifies config m)
  /\ remoteConsuls (snd (localJoin1 config m s)) = remoteConsuls s.
Proof.
  unfold localJoin1, qualifies, bind.
  destruct (isConsulServer_classify m s) as [Hfst _].
  pose proof (isConsulServer_remoteConsuls m s) as Hdir.
  pose proof (isConsulServer_keeps_spawned m s) as Hsp.
  destruct (isConsulServer m s) as [r s1]. cbn in Hfst, Hdir, Hsp.
  rewrite <- Hfst, <- Hdir, <- Hsp.
  destruct r as [[[[] dc] port]|msg]; cbn; rewrite ?app_nil_r; auto.
  destruct (String.eqb dc (Datacenter config)); cbn; rewrite ?app_nil_r; auto.
Qed.

Lemma localJoin1_returns (m : Member) (s : Server) :
  fst (localJoin1 config m s) = Done tt <-> ~ shortTag (Role m).
Proof.
  destruct (localJoin1_cases m s) as [-> _]. rewrite <- classify_Done_iff.
  destruct (classify m) as [c|msg]; split; try discriminate; eauto.
  intros [c Hc]. discriminate.
Qed.

(** X10: the WAN handler returns from a list of events exactly when no
    member of its join, leave and fail events bears a tag made of the
    marker and of one field; otherwise it panics. *)
Theorem wanEventHandler_returns_iff (evs : list Event) (s : Server) :
  fst (wanEventHandler evs s) = Done tt
  <-> Forall (fun m => ~ shortTag (Role m)) (wanMembers evs).
Proof.
  unfold wanEventHandler, wanMembers.
  rewrite (forEach_returns wanDispatch
             (fun e => Forall (fun m => ~ shortTag (Role m))
                         match e with
                         | EventMemberJoin me => me
                         | EventMemberLeave me => me
                         | EventMemberFailed me => me
                         | _ => []
                         end)).
  - induction evs as [|e evs IH]; cbn [flat_map].
    + split; constructor.
    + now rewrite Forall_cons, Forall_app, IH.
  - intros e s'. destruct e as [me|me|me|ue|repr]; cbn [wanDispatch].
    + apply forEach_returns, remoteJoin1_returns.
    + apply forEach_returns, remoteFailed1_returns.
    + apply forEach_returns, remoteFailed1_returns.
    + split; [constructor|reflexivity].
    + split; [constructor|reflexivity].
Qed.

(** X11: the LAN handler returns from a list of events exactly when no
    member of its join events bears such a tag; the members of the leave
    and fail events are not classified and never make it panic. *)
Theorem lanEventHandler_returns_iff (evs : list Event) (s : Server) :
  fst (lanEventHandler config evs s) = Done tt
  <-> Forall (fun m => ~ shortTag (Role m)) (joinedMembers evs).
Proof.
  unfold lanEventHandler, joinedMembers.
  rewrite (forEach_returns (lanDispatch config)
             (fun e => Forall (fun m => ~ shortTag (Role m))
                         match e with
                         | EventMemberJoin me => me
                         | _ => []
                         end)).
  - induction evs as [|e evs IH]; cbn [flat_map].
    + split; constructor.
    + now rewrite Forall_cons, Forall_app, IH.
  - intros e s'. destruct e as [me|me|me|ue|repr]; cbn [lanDispatch].
    + apply forEach_returns, localJoin1_returns.
    + split; [constructor|reflexivity].
    + split; [constructor|reflexivity].
    + split; [constructor|reflexivity].
    + split; [constructor|reflexivity].
Qed.

Lemma remoteJoin1_keeps_spawned (m : Member) : keeps spawned (remoteJoin1 m).
Proof.
  intros s. unfold remoteJoin1, bind.
  pose proof (isConsulServer_keeps_spawned m s) as Hsp.
  destruct (isConsulServer m s) as [[[[[] dc] port]|msg] s1]; cbn in Hsp |- *;
    try exact Hsp.
  unfold getRemote, setRemote, ret. destruct (existsb _ _); exact Hsp.
Qed.

Lemma remoteFailed1_keeps_spawned (m : Member) :
  keeps spawned (remoteFailed1 m).
Proof.
  intros s. unfold remoteFailed1, bind.
  pose proof (isConsulServer_keeps_spawned m s) as Hsp.
  destruct (isConsulServer m s) as [[[[[] dc] port]|msg] s1]; cbn in Hsp |- *;
    try exact Hsp.
  unfold getRemote, setRemote, deleteRemote. destruct (Nat.eqb _ _); exact Hsp.
Qed.

(** X12: each handler writes its own part of the server only: the LAN
    handler leaves the directory of remote servers as it is, and the WAN
    handler starts no goroutine. *)
Theorem handlers_keep_apart (evs : list Event) (s : Server) :
  remoteConsuls (snd (lanEventHandler config evs s)) = remoteConsuls s
  /\ spawned (snd (wanEventHandler evs s)) = spawned s.
Proof.
  split.
  - apply (keeps_forEach remoteConsuls (lanDispatch config) evs).
    intros e s'. destruct e as [me|me|me|ue|repr]; cbn [lanDispatch];
      try reflexivity.
    apply (keeps_forEach remoteConsuls (localJoin1 config) me).
    intros m s''. now destruct (localJoin1_cases m s'') as (_ & _ & ->).
  - apply (keeps_forEach spawned wanDispatch evs).
    intros e s'. destruct e as [me|me|me|ue|repr]; cbn [wanDispatch];
      try reflexivity.
    + apply (keeps_forEach spawned remoteJoin1 me remoteJoin1_keeps_spawned).
    + apply (keeps_forEach spawned remoteFailed1 me
               remoteFailed1_keeps_spawned).
    + apply (keeps_forEach spawned remoteFailed1 me
               remoteFailed1_keeps_spawned).
Qed.

Lemma localJoin_spawned (me : list Member) (s : Server) :
  spawned (snd (localJoin config me s))
  = spawned s ++ omap (qualifies config) (reached me).
Proof.
  revert s. induction me as [|m me IH]; intros s.
  - cbn. now rewrite app_nil_r.
  - unfold localJoin in *. cbn [forEach reached]. unfold bind.
    destruct (localJoin1_cases m s) as (Hfst & Hsp & _).
    destruct (localJoin1 config m s) as [r s1]. cbn [fst snd] in Hfst, Hsp.
    destruct (classify m) as [c|msg] eqn:Hcl; subst r; cbn [snd].
    + rewrite IH, Hsp, <- app_assoc. f_equal. cbn.
      now destruct (qualifies config m).
    + rewrite Hsp. unfold qualifies. now rewrite Hcl.
Qed.

(** X13: [localJoin] starts one goroutine for each member of the event
    that is a participant of the site of this server, in the order of the
    event and with the port of its tag, up to the first member that makes
    the classifier panic, and starts no other. *)
Theorem localJoin_starts (me : list Member) (s : Server) :
  spawned (snd (localJoin config me s))
  = spawned s ++ omap (qualifies config) (reached me)
  /\ (Forall (fun m => ~ shortTag (Role m)) me -> reached me = me).
Proof.
  split; [apply localJoin_spawned|].
  induction 1 as [|m me Hm _ IH]; [reflexivity|]. cbn [reached].
  apply classify_Done_iff in Hm as [c ->]. now rewrite IH.
Qed.

End Returns.

(** ** The join loop, pass after pass *)

Section Passes.

Context `{!NetAddr TCPAddr}.
Variable config : Config.
Variable world : World.

Lemma joinLoop_requests_addr (m : Member) (addr a : TCPAddr)
    (fuel round : nat) :
  ActAddPeer a ∈ snd (joinLoop world m addr fuel round) -> a = addr.
Proof.
  revert round. induction fuel as [|fuel IH]; intros round.
  - cbn. intros Hin. now apply not_elem_of_nil in Hin.
  - cbn [joinLoop]. specialize (IH (S round)).
    destruct (joinLoop world m addr fuel (S round)) as [e rest].
    cbn [snd] in IH.
    destruct (raftPeers world round) as [peers|err];
      [destruct (existsb (sameAddr addr) peers);
       [|destruct (negb _);
         [|destruct (raftAddPeer world round addr)]]|];
      try destruct (shutdownCh world round); cbn [snd];
      rewrite ?elem_of_app, ?elem_of_cons, ?elem_of_nil;
      intros Hin; decompose [or] Hin; try discriminate; try contradiction;
      try congruence; auto.
Qed.

(** X14: every add-peer request that [joinConsulServer] makes names the
    address made of the IP of the member and of the port it was given,
    and the member does not bear the name of this node. *)
Theorem joinConsulServer_requests_candidate
    (m : Member) (port : Z) (fuel : nat) (a : TCPAddr) :
  ActAddPeer a ∈ snd (joinConsulServer config world m port fuel) ->
  a = {| IP := Addr m; Port := port |} /\ Name m <> NodeName config.
Proof.
  unfold joinConsulServer.
  destruct (String.eqb_spec (Name m) (NodeName config)) as [Heq|Hne].
  - cbn. intros Hin. now apply not_elem_of_nil in Hin.
  - intros Hin. split; [|exact Hne].
    exact (joinLoop_requests_addr m _ a fuel 0 Hin).
Qed.

(** X15: in a pass that finds the shutdown channel closed when it wakes
    up, the loop returns: more fuel changes nothing, and the pass has made
    one add-peer request at most. *)
Theorem joinLoop_shutdown (m : Member) (addr : TCPAddr) (fuel round : nat) :
  shutdownCh world round = true ->
  joinLoop world m addr (S fuel) round = joinLoop world m addr 1 round
  /\ fst (joinLoop world m addr (S fuel) round) = Returned
  /\ (length (filter (fun a => isAddPeer a = true)
                (snd (joinLoop world m addr (S fuel) round))) <= 1)%nat.
Proof.
  intros Hdown. cbn [joinLoop]. rewrite Hdown.
  destruct (raftPeers world round) as [peers|err];
    [destruct (existsb (sameAddr addr) peers);
     [|destruct (negb _);
       [|destruct (raftAddPeer world round addr)]]|];
    cbn [fst snd]; repeat split; vm_compute; lia.
Qed.

(** X16: as long as, in every pass, the peers cannot be read, or hold the
    address of the candidate, or the candidate is not alive in the LAN
    pool, the loop makes no add-peer request, however many passes it
    runs. *)
Theorem joinLoop_no_request (m : Member) (addr : TCPAddr) :
  (forall round,
      match raftPeers world round with
      | inr _ => True
      | inl peers =>
          existsb (sameAddr addr) peers = true
          \/ memberStatus (serfLANMembers world round) (Name m)
             <> StatusAlive
      end) ->
  forall fuel round,
    Forall (fun a => isAddPeer a = false)
           (snd (joinLoop world m addr fuel round)).
Proof.
  intros Hnever fuel. induction fuel as [|fuel IH]; intros round.
  - constructor.
  - cbn [joinLoop]. specialize (IH (S round)). specialize (Hnever round).
    destruct (joinLoop world m addr fuel (S round)) as [e rest].
    cbn [snd] in IH.
    destruct (raftPeers world round) as [peers|err].
    + destruct (existsb (sameAddr addr) peers) eqn:Hex.
      { repeat constructor. }
      destruct Hnever as [Hin|Hdead]; [discriminate|].
      rewrite (bool_decide_eq_false_2 _ Hdead). cbn. repeat constructor.
    + destruct (shutdownCh world round); cbn [snd].
      * repeat constructor.
      * repeat (constructor; [reflexivity|]). exact IH.
Qed.

(** X17: when [K] passes in a row come to a wait (the peers cannot be
    read, or Raft refuses the request) with the shutdown channel open, and
    in the next pass Raft accepts the request, the loop returns in that
    pass: it has read the peers [K + 1] times and the accepted request for
    the address of the candidate is the last thing it did. *)
Theorem joinLoop_eventually_added
    (m : Member) (addr : TCPAddr) (K fuel round : nat) :
  (forall r, (round <= r < round + K)%nat ->
             pass world m addr r = PassRetry
             /\ shutdownCh world r = false) ->
  pass world m addr (round + K) = PassAdded ->
  (K < fuel)%nat ->
  fst (joinLoop world m addr fuel round) = Returned
  /\ last (snd (joinLoop world m addr fuel round)) = Some (ActAddPeer addr)
  /\ length (filter (fun a => isPeers a = true)
               (snd (joinLoop world m addr fuel round))) = S K.
Proof.
  revert fuel round. induction K as [|K IH]; intros fuel round Hretry Hadd Hlt.
  - destruct fuel as [|fuel]; [lia|]. rewrite Nat.add_0_r in Hadd.
    unfold pass in Hadd. cbn [joinLoop].
    destruct (raftPeers world round) as [peers|err]; [|discriminate].
    destruct (existsb (sameAddr addr) peers); [discriminate|].
    destruct (negb _); [discriminate|].
    destruct (raftAddPeer world round addr); [discriminate|].
    cbn. repeat split.
  - destruct fuel as [|fuel]; [lia|].
    destruct (Hretry round ltac:(lia)) as [Hpass Hopen].
    assert (Hrec : fst (joinLoop world m addr fuel (S round)) = Returned
                   /\ last (snd (joinLoop world m addr fuel (S round)))
                      = Some (ActAddPeer addr)
                   /\ length (filter (fun a => isPeers a = true)
                                (snd (joinLoop world m addr fuel (S round))))
                      = S K).
    { apply IH; [|now replace (S round + K)%nat with (round + S K)%nat by lia
                 |lia].
      intros r Hr. apply Hretry. lia. }
    destruct Hrec as (Hret & Hlast & Hcount).
    unfold pass in Hpass. cbn [joinLoop]. rewrite Hopen.
    destruct (joinLoop world m addr fuel (S round)) as [e rest].
    cbn [fst snd] in Hret, Hlast, Hcount. subst e.
    apply last_Some in Hlast as [rest' ->].
    destruct (raftPeers world round) as [peers|err].
    + destruct (existsb (sameAddr addr) peers); [discriminate|].
      destruct (negb _); [discriminate|].
      destruct (raftAddPeer world round addr) as [err|]; [|discriminate].
      cbn [fst snd]. split; [reflexivity|]. split.
      * change ([ActPeers; ActMembers; ActAddPeer addr;
                 ActLog (failedAddPeer err)]
                ++ [ActSleep; ActPollShutdown] ++ rest' ++ [ActAddPeer addr])
          with (([ActPeers; ActMembers; ActAddPeer addr;
                  ActLog (failedAddPeer err); ActSleep; ActPollShutdown]
                 ++ rest') ++ [ActAddPeer addr]).
        apply last_snoc.
      * rewrite 2!filter_app, 2!length_app, Hcount. reflexivity.
    + cbn [fst snd]. split; [reflexivity|]. split.
      * change ([ActPeers; ActLog (failedPeers err)]
                ++ [ActSleep; ActPollShutdown] ++ rest' ++ [ActAddPeer addr])
          with (([ActPeers; ActLog (failedPeers err);
                  ActSleep; ActPollShutdown] ++ rest') ++ [ActAddPeer addr]).
        apply last_snoc.
      * rewrite 2!filter_app, 2!length_app, Hcount. reflexivity.
Qed.

Lemma lanEventHandler_spawned (evs : list Event) (s : Server)
    (t : Member * Z) :
  t ∈ spawned (snd (lanEventHandler config evs s)) ->
  t ∈ spawned s
  \/ exists m, m ∈ joinedMembers evs /\ qualifies config m = Some t.
Proof.
  revert s. induction evs as [|e evs IH]; intros s; [now left|].
  unfold lanEventHandler in *. cbn [forEach joinedMembers flat_map].
  fold (joinedMembers evs). unfold bind.
  assert (He : forall t, t ∈ spawned (snd (lanDispatch config e s)) ->
               t ∈ spawned s
               \/ exists m, m ∈ match e with
                                | EventMemberJoin me => me
                                | _ => []
                                end
                            /\ qualifies config m = Some t).
  { intros t'. destruct e as [me|me|me|ue|repr]; cbn [lanDispatch];
      try (now left).
    rewrite localJoin_spawned, elem_of_app, list_elem_of_omap.
    intros [Hold|(m & Hm & Hq)]; [now left|right].
    exists m. split; [|exact Hq].
    clear -Hm. induction me as [|m0 me IHme]; [exact Hm|].
    cbn [reached] in Hm. destruct (classify m0).
    - apply elem_of_cons in Hm as [->|Hm]; [apply list_elem_of_here|].
      apply list_elem_of_further. now apply IHme.
    - now apply not_elem_of_nil in Hm. }
  destruct (lanDispatch config e s) as [[[]|msg] s1]; cbn [snd] in He |- *.
  - intros Ht. destruct (IH s1 Ht) as [Hs1|(m & Hm & Hq)].
    + destruct (He t Hs1) as [Hs|(m & Hm & Hq)]; [now left|right].
      exists m. split; [|exact Hq]. apply elem_of_app. now left.
    + right. exists m. split; [|exact Hq]. apply elem_of_app. now right.
  - intros Ht. destruct (He t Ht) as [Hs|(m & Hm & Hq)]; [now left|right].
    exists m. split; [|exact Hq]. apply elem_of_app. now left.
Qed.

(** X18: whatever LAN events the handler has processed since the server
    was created, the goroutines it has started request Raft to add only
    addresses of members of the join events that are participants of the
    site of this server and do not bear the name of this node, each made
    of the IP of the member and of the port of its tag. *)
Theorem lanEventHandler_requests
    (evs : list Event) (fuel : nat) (a : TCPAddr) :
  ActAddPeer a
    ∈ addPeerRequests config world
        (snd (lanEventHandler config evs newServer)) fuel ->
  exists m port,
    m ∈ joinedMembers evs
    /\ fst (isConsulServer m newServer) = Done (true, Datacenter config, port)
    /\ Name m <> NodeName config
    /\ a = {| IP := Addr m; Port := port |}.
Proof.
  unfold addPeerRequests. rewrite list_elem_of_In, in_flat_map.
  intros ([m port] & Ht & Ha). cbn [fst snd] in Ha.
  apply list_elem_of_In in Ht, Ha. apply list_elem_of_filter in Ha as [_ Ha].
  destruct (lanEventHandler_spawned evs newServer (m, port) Ht)
    as [Hnone|(m' & Hm' & Hq)].
  { now apply not_elem_of_nil in Hnone. }
  unfold qualifies in Hq. fold (classify m').
  destruct (classify m') as [[[[] dc] port']|msg] eqn:Hcl; try discriminate.
  destruct (String.eqb_spec dc (Datacenter config)) as [->|];
    [|discriminate].
  inversion Hq; subst m' port'. exists m, port.
  unfold joinConsulServer in Ha.
  destruct (String.eqb_spec (Name m) (NodeName config)) as [Heq|Hne].
  { now apply not_elem_of_nil in Ha. }
  repeat split; [exact Hm'|exact Hcl|exact Hne|].
  exact (joinLoop_requests_addr m _ a fuel 0 Ha).
Qed.

(** X19: the LAN handler does nothing for the leave, fail and user
    events: it ends as it would had they not been delivered. *)
Theorem lanEventHandler_ignores (evs : list Event) (s : Server) :
  lanEventHandler config evs s
  = lanEventHandler config (List.filter lanRelevant evs) s.
Proof.
  unfold lanEventHandler. revert s.
  induction evs as [|e evs IH]; intros s; [reflexivity|].
  cbn [List.filter forEach].
  destruct e as [me|me|me|ue|repr]; cbn [lanRelevant forEach];
    try (unfold bind at 1; cbn; exact (IH s)).
  - unfold bind. destruct (lanDispatch config (EventMemberJoin me) s)
      as [[[]|msg] s1]; [apply IH|reflexivity].
  - unfold bind. destruct (lanDispatch config (EventOther repr) s)
      as [[[]|msg] s1]; [apply IH|reflexivity].
Qed.

End Passes.

(** ** The further properties at work *)

Lemma remoteFailed_removes_witness :
  @present tcp4
    (remoteConsuls
       (snd (@remoteFailed tcp4 [node3]
          (snd (@wanEventHandler tcp4 [EventMemberJoin [node3; node4]]
                  newServer)))))
    "dc2" (addrOf node3 8300)
  = false.
Proof.
  exact (@remoteFailed_removes tcp4 [EventMemberJoin [node3; node4]]
           node3 "dc2" 8300 eq_refl).
Defined.

Lemma remoteFailed_keeps_others_witness :
  @present tcp4
    (remoteConsuls
       (snd (@remoteFailed tcp4 [node3]
          (snd (@remoteJoin tcp4 [node3; node4] newServer)))))
    "dc2" (addrOf node4 8300)
  = @present tcp4
      (remoteConsuls (snd (@remoteJoin tcp4 [node3; node4] newServer)))
      "dc2" (addrOf node4 8300).
Proof.
  refine (proj1 (@remoteFailed_keeps_others tcp4 node3
                   (snd (@remoteJoin tcp4 [node3; node4] newServer))
                   "dc2" 8300 "dc2" (addrOf node4 8300) eq_refl _)).
  right. vm_compute. discriminate.
Defined.

Lemma remoteJoin_adds_only_witness :
  @present tcp4
    (remoteConsuls
       (snd (@remoteJoin tcp4 [node4]
          (snd (@remoteJoin tcp4 [node3] newServer)))))
    "dc2" (addrOf node4 8300)
  = true.
Proof.
  refine (proj1 (@remoteJoin_adds_only tcp4 node4
                   (snd (@remoteJoin tcp4 [node3] newServer))
                   "dc2" 8300 "dc1" (addrOf node2 8300) eq_refl _)).
  left. discriminate.
Defined.

Lemma remoteJoin_remoteFailed_roundtrip_witness :
  remoteConsuls
    (snd (@remoteFailed tcp4 [node4]
       (snd (@remoteJoin tcp4 [node4]
          (snd (@wanEventHandler tcp4 [EventMemberJoin [node3]]
                  newServer))))))
  = remoteConsuls
      (snd (@wanEventHandler tcp4 [EventMemberJoin [node3]] newServer)).
Proof.
  apply (@remoteJoin_remoteFailed_roundtrip tcp4 [EventMemberJoin [node3]]
           node4 "dc2" 8300); vm_compute; reflexivity.
Defined.

Lemma remoteConsuls_provenance_witness :
  exists m port,
    m ∈ joinedMembers [EventMemberJoin [node3; node4];
                       EventMemberFailed [node3]]
    /\ fst (isConsulServer m newServer) = Done (true, "dc2", port)
    /\ addrOf node4 8300 = {| IP := Addr m; Port := port |}.
Proof.
  apply (@remoteConsuls_provenance tcp4
           [EventMemberJoin [node3; node4]; EventMemberFailed [node3]]
           "dc2" [addrOf node4 8300] (addrOf node4 8300)).
  - vm_compute. reflexivity.
  - apply list_elem_of_here.
Defined.

Lemma joinConsulServer_requests_candidate_witness :
  addrOf node2 8300 = {| IP := Addr node2; Port := 8300 |}
  /\ Name node2 <> NodeName dc1.
Proof.
  apply (@joinConsulServer_requests_candidate tcp4 dc1 freshWorld
           node2 8300 5 (addrOf node2 8300)).
  vm_compute. repeat constructor.
Defined.

Lemma joinLoop_shutdown_witness :
  @joinLoop tcp4 closingWorld node2 (addrOf node2 8300) 4 0
  = @joinLoop tcp4 closingWorld node2 (addrOf node2 8300) 1 0
  /\ fst (@joinLoop tcp4 closingWorld node2 (addrOf node2 8300) 4 0)
     = Returned
  /\ (length (filter (fun a => isAddPeer a = true)
                (snd (@joinLoop tcp4 closingWorld node2
                        (addrOf node2 8300) 4 0))) <= 1)%nat.
Proof.
  apply (@joinLoop_shutdown tcp4 closingWorld node2 (addrOf node2 8300) 3 0).
  reflexivity.
Defined.

Lemma joinLoop_no_request_witness :
  Forall (fun a => isAddPeer a = false)
         (snd (@joinLoop tcp4 emptyLANWorld node2 (addrOf node2 8300) 3 0)).
Proof.
  apply (@joinLoop_no_request tcp4 emptyLANWorld node2 (addrOf node2 8300)).
  intros round. cbn. right. discriminate.
Defined.

Lemma joinLoop_eventually_added_witness :
  fst (@joinLoop tcp4 freshWorld node2 (addrOf node2 8300) 5 0) = Returned
  /\ last (snd (@joinLoop tcp4 freshWorld node2 (addrOf node2 8300) 5 0))
     = Some (ActAddPeer (addrOf node2 8300))
  /\ length (filter (fun a => isPeers a = true)
               (snd (@joinLoop tcp4 freshWorld node2
                       (addrOf node2 8300) 5 0)))
     = 2%nat.
Proof.
  apply (@joinLoop_eventually_added tcp4 freshWorld node2
           (addrOf node2 8300) 1 5 0).
  - intros r Hr. assert (r = 0%nat) as -> by lia. split; reflexivity.
  - reflexivity.
  - lia.
Defined.

Lemma lanEventHandler_requests_witness :
  exists m port,
    m ∈ joinedMembers [EventMemberJoin [node3; node2]]
    /\ fst (isConsulServer m newServer) = Done (true, Datacenter dc1, port)
    /\ Name m <> NodeName dc1
    /\ addrOf node2 8300 = {| IP := Addr m; Port := port |}.
Proof.
  apply (@lanEventHandler_requests tcp4 dc1 freshWorld
           [EventMemberJoin [node3; node2]] 5 (addrOf node2 8300)).
  vm_compute. repeat constructor.
Defined.

Lemma remoteFailed_unknown_witness :
  remoteConsuls
    (snd (@remoteFailed tcp4 [node4]
       (snd (@wanEventHandler tcp4 [EventMemberJoin [node3]] newServer))))
  = remoteConsuls
      (snd (@wanEventHandler tcp4 [EventMemberJoin [node3]] newServer)).
Proof.
  apply (@remoteFailed_unknown tcp4 [EventMemberJoin [node3]]
           node4 "dc2" 8300); vm_compute; reflexivity.
Defined.
